(** * Defaulting of workload objects (pkg/reconciling/defaults.go)

    A shallow embedding of [DefaultContainer], [DefaultPodSpec] and the four
    workload wrappers, together with the properties the specification states
    about them.

    Modelling conventions.

    - Go strings are [string]; the empty string is the "unset" value of the
      string-typed enumerations ([PullPolicy], [ProcMountType], ...).
    - [int32] and [int64] fields are [Z]; no arithmetic is performed on them.
    - A pointer field whose pointee is only ever replaced as a whole, or only
      filled with a constant when empty, is an [option] ([None] is [nil]).
    - [Container.SecurityContext] is written through
      ([c.SecurityContext.ProcMount = ...]) with a value that depends on the
      container holding the pointer, so two containers holding the same
      pointer observe each other's writes.  These objects therefore live in a
      heap, and a container holds a location.
      Reading a location the heap does not hold gives the zero value; a Go
      pointer is never dangling, so no real input reaches that case.
    - Slices are lists.  A container struct that two slices share in memory
      appears in both lists, with the same descriptor location.
    - Workload objects are handed around by pointer and mutated in place by
      the wrappers; they live in per-kind object tables of the store.
    - A nil dereference panics; computations on the store return either a
      value or a panic.
    - The Kubernetes API types are external to the repository.  The records
      below carry every field the code reads or writes plus a few untouched
      ones, so that frame properties are not vacuous. *)

From Stdlib Require Import ZArith String List.
From stdpp Require Import base option list gmap strings fin_maps.

Local Open Scope string_scope.

(** ** Constants of k8s.io/api and k8s.io/apimachinery *)

Module corev1.
Definition PullIfNotPresent : string := "IfNotPresent".
Definition TerminationMessagePathDefault : string := "/dev/termination-log".
Definition TerminationMessageReadFile : string := "File".
Definition SeccompProfileTypeRuntimeDefault : string := "RuntimeDefault".
(* 0644 *)
Definition SecretVolumeSourceDefaultMode : Z := 420%Z.
Definition ConfigMapVolumeSourceDefaultMode : Z := 420%Z.
End corev1.

Module appsv1.
Definition RollingUpdateDeploymentStrategyType : string := "RollingUpdate".
End appsv1.

(** ** Data model *)

(** Heap locations; a non-nil Go pointer is [Some l]. *)
Abbreviation loc := positive.

Abbreviation ProcMountType := string (only parsing).

Module ObjectFieldSelector.
Record t := mk { APIVersion : string; FieldPath : string }.
Definition set_APIVersion (v : string) (x : t) : t := mk v (FieldPath x).
End ObjectFieldSelector.

Module EnvVarSource.
Record t := mk {
  FieldRef : option ObjectFieldSelector.t;
  SecretKeyRef : option (string * string) }.
Definition set_FieldRef (v : option ObjectFieldSelector.t) (x : t) : t :=
  mk v (SecretKeyRef x).
End EnvVarSource.

Module EnvVar.
Record t := mk {
  Name : string;
  Value : string;
  ValueFrom : option EnvVarSource.t }.
Definition set_ValueFrom (v : option EnvVarSource.t) (x : t) : t :=
  mk (Name x) (Value x) v.
End EnvVar.

Module SecurityContext.
Record t := mk {
  Privileged : option bool;
  RunAsUser : option Z;
  ReadOnlyRootFilesystem : option bool;
  AllowPrivilegeEscalation : option bool;
  ProcMount : option ProcMountType }.
Definition set_ProcMount (v : option ProcMountType) (x : t) : t :=
  mk (Privileged x) (RunAsUser x) (ReadOnlyRootFilesystem x)
     (AllowPrivilegeEscalation x) v.
Definition zero : t := mk None None None None None.
End SecurityContext.

Module Container.
Record t := mk {
  Name : string;
  Image : string;
  Env : list EnvVar.t;
  ImagePullPolicy : string;
  TerminationMessagePath : string;
  TerminationMessagePolicy : string;
  SecurityContext : option loc }.
Definition set_Env (v : list EnvVar.t) (x : t) : t :=
  mk (Name x) (Image x) v (ImagePullPolicy x) (TerminationMessagePath x)
     (TerminationMessagePolicy x) (SecurityContext x).
Definition set_ImagePullPolicy (v : string) (x : t) : t :=
  mk (Name x) (Image x) (Env x) v (TerminationMessagePath x)
     (TerminationMessagePolicy x) (SecurityContext x).
Definition set_TerminationMessagePath (v : string) (x : t) : t :=
  mk (Name x) (Image x) (Env x) (ImagePullPolicy x) v
     (TerminationMessagePolicy x) (SecurityContext x).
Definition set_TerminationMessagePolicy (v : string) (x : t) : t :=
  mk (Name x) (Image x) (Env x) (ImagePullPolicy x)
     (TerminationMessagePath x) v (SecurityContext x).
Definition set_SecurityContext (v : option loc) (x : t) : t :=
  mk (Name x) (Image x) (Env x) (ImagePullPolicy x)
     (TerminationMessagePath x) (TerminationMessagePolicy x) v.
End Container.

Module SecretVolumeSource.
Record t := mk {
  SecretName : string;
  DefaultMode : option Z;
  Optional : option bool }.
Definition set_DefaultMode (v : option Z) (x : t) : t :=
  mk (SecretName x) v (Optional x).
End SecretVolumeSource.

Module ConfigMapVolumeSource.
Record t := mk {
  Name : string;
  DefaultMode : option Z;
  Optional : option bool }.
Definition set_DefaultMode (v : option Z) (x : t) : t :=
  mk (Name x) v (Optional x).
End ConfigMapVolumeSource.

Module VolumeSource.
Record t := mk {
  HostPath : option string;
  Secret : option SecretVolumeSource.t;
  ConfigMap : option ConfigMapVolumeSource.t }.
Definition set_Secret (v : option SecretVolumeSource.t) (x : t) : t :=
  mk (HostPath x) v (ConfigMap x).
Definition set_ConfigMap (v : option ConfigMapVolumeSource.t) (x : t) : t :=
  mk (HostPath x) (Secret x) v.
End VolumeSource.

Module Volume.
Record t := mk { Name : string; VolumeSource : VolumeSource.t }.
Definition set_VolumeSource (v : VolumeSource.t) (x : t) : t := mk (Name x) v.
End Volume.

Module SeccompProfile.
(** [Type_] is the Go field [Type]. *)
Record t := mk { Type_ : string; LocalhostProfile : option string }.
End SeccompProfile.

Module PodSecurityContext.
Record t := mk {
  RunAsUser : option Z;
  RunAsNonRoot : option bool;
  FSGroup : option Z;
  SeccompProfile : option SeccompProfile.t }.
Definition set_SeccompProfile (v : option SeccompProfile.t) (x : t) : t :=
  mk (RunAsUser x) (RunAsNonRoot x) (FSGroup x) v.
(** [&corev1.PodSecurityContext{}] *)
Definition zero : t := mk None None None None.
End PodSecurityContext.

Module PodSpec.
Record t := mk {
  Volumes : list Volume.t;
  InitContainers : list Container.t;
  Containers : list Container.t;
  ServiceAccountName : string;
  SecurityContext : option PodSecurityContext.t }.
Definition set_Volumes (v : list Volume.t) (x : t) : t :=
  mk v (InitContainers x) (Containers x) (ServiceAccountName x)
     (SecurityContext x).
Definition set_InitContainers (v : list Container.t) (x : t) : t :=
  mk (Volumes x) v (Containers x) (ServiceAccountName x) (SecurityContext x).
Definition set_Containers (v : list Container.t) (x : t) : t :=
  mk (Volumes x) (InitContainers x) v (ServiceAccountName x)
     (SecurityContext x).
Definition set_SecurityContext (v : option PodSecurityContext.t) (x : t) : t :=
  mk (Volumes x) (InitContainers x) (Containers x) (ServiceAccountName x) v.
End PodSpec.

(** The heap of per-container security contexts. *)
Abbreviation Heap := (gmap loc SecurityContext.t).

#[global] Instance SecurityContext_inhabited : Inhabited SecurityContext.t :=
  populate SecurityContext.zero.

(** Go's [error] values are opaque here. *)
Abbreviation error := string (only parsing).

(** ** Workload objects *)

Module IntOrString.
(** [intstr.Type]: [Int] is 0 and [String] is 1. *)
Inductive Kind := Int | String.
Record t := mk { Type_ : Kind; IntVal : Z; StrVal : string }.
End IntOrString.

Module RollingUpdateDeployment.
Record t := mk {
  MaxUnavailable : option IntOrString.t;
  MaxSurge : option IntOrString.t }.
End RollingUpdateDeployment.

Module DeploymentStrategy.
Record t := mk {
  Type_ : string;
  RollingUpdate : option RollingUpdateDeployment.t }.
Definition set_Type (v : string) (x : t) : t := mk v (RollingUpdate x).
Definition set_RollingUpdate (v : option RollingUpdateDeployment.t) (x : t)
    : t := mk (Type_ x) v.
End DeploymentStrategy.

Module PodTemplateSpec.
Record t := mk { Labels : list (string * string); Spec : PodSpec.t }.
Definition set_Spec (v : PodSpec.t) (x : t) : t := mk (Labels x) v.
End PodTemplateSpec.

Module DeploymentSpec.
Record t := mk {
  Replicas : option Z;
  Template : PodTemplateSpec.t;
  Strategy : DeploymentStrategy.t }.
Definition set_Template (v : PodTemplateSpec.t) (x : t) : t :=
  mk (Replicas x) v (Strategy x).
Definition set_Strategy (v : DeploymentStrategy.t) (x : t) : t :=
  mk (Replicas x) (Template x) v.
End DeploymentSpec.

Module Deployment.
Record t := mk { Name : string; Spec : DeploymentSpec.t }.
Definition set_Spec (v : DeploymentSpec.t) (x : t) : t := mk (Name x) v.
(** [d.Spec.Strategy] *)
Definition Strategy (x : t) : DeploymentStrategy.t :=
  DeploymentSpec.Strategy (Spec x).
Definition set_Strategy (v : DeploymentStrategy.t) (x : t) : t :=
  set_Spec (DeploymentSpec.set_Strategy v (Spec x)) x.
(** [d.Spec.Template.Spec] *)
Definition PodSpec (x : t) : PodSpec.t :=
  PodTemplateSpec.Spec (DeploymentSpec.Template (Spec x)).
Definition set_PodSpec (v : PodSpec.t) (x : t) : t :=
  set_Spec (DeploymentSpec.set_Template
              (PodTemplateSpec.set_Spec v (DeploymentSpec.Template (Spec x)))
              (Spec x)) x.
End Deployment.

Module StatefulSetSpec.
Record t := mk {
  Replicas : option Z;
  ServiceName : string;
  Template : PodTemplateSpec.t }.
Definition set_Template (v : PodTemplateSpec.t) (x : t) : t :=
  mk (Replicas x) (ServiceName x) v.
End StatefulSetSpec.

Module StatefulSet.
Record t := mk { Name : string; Spec : StatefulSetSpec.t }.
Definition set_Spec (v : StatefulSetSpec.t) (x : t) : t := mk (Name x) v.
(** [ss.Spec.Template.Spec] *)
Definition PodSpec (x : t) : PodSpec.t :=
  PodTemplateSpec.Spec (StatefulSetSpec.Template (Spec x)).
Definition set_PodSpec (v : PodSpec.t) (x : t) : t :=
  set_Spec (StatefulSetSpec.set_Template
              (PodTemplateSpec.set_Spec v (StatefulSetSpec.Template (Spec x)))
              (Spec x)) x.
End StatefulSet.

Module DaemonSetSpec.
Record t := mk { Template : PodTemplateSpec.t; MinReadySeconds : Z }.
Definition set_Template (v : PodTemplateSpec.t) (x : t) : t :=
  mk v (MinReadySeconds x).
End DaemonSetSpec.

Module DaemonSet.
Record t := mk { Name : string; Spec : DaemonSetSpec.t }.
Definition set_Spec (v : DaemonSetSpec.t) (x : t) : t := mk (Name x) v.
(** [ds.Spec.Template.Spec] *)
Definition PodSpec (x : t) : PodSpec.t :=
  PodTemplateSpec.Spec (DaemonSetSpec.Template (Spec x)).
Definition set_PodSpec (v : PodSpec.t) (x : t) : t :=
  set_Spec (DaemonSetSpec.set_Template
              (PodTemplateSpec.set_Spec v (DaemonSetSpec.Template (Spec x)))
              (Spec x)) x.
End DaemonSet.

Module JobSpec.
Record t := mk { Parallelism : option Z; Template : PodTemplateSpec.t }.
Definition set_Template (v : PodTemplateSpec.t) (x : t) : t :=
  mk (Parallelism x) v.
End JobSpec.

Module JobTemplateSpec.
Record t := mk { Spec : JobSpec.t }.
End JobTemplateSpec.

Module CronJobSpec.
Record t := mk { Schedule : string; JobTemplate : JobTemplateSpec.t }.
Definition set_JobTemplate (v : JobTemplateSpec.t) (x : t) : t :=
  mk (Schedule x) v.
End CronJobSpec.

Module CronJob.
Record t := mk { Name : string; Spec : CronJobSpec.t }.
Definition set_Spec (v : CronJobSpec.t) (x : t) : t := mk (Name x) v.
(** [cj.Spec.JobTemplate.Spec.Template.Spec] *)
Definition PodSpec (x : t) : PodSpec.t :=
  PodTemplateSpec.Spec
    (JobSpec.Template (JobTemplateSpec.Spec (CronJobSpec.JobTemplate (Spec x)))).
Definition set_PodSpec (v : PodSpec.t) (x : t) : t :=
  let job := JobTemplateSpec.Spec (CronJobSpec.JobTemplate (Spec x)) in
  set_Spec (CronJobSpec.set_JobTemplate
              (JobTemplateSpec.mk
                 (JobSpec.set_Template
                    (PodTemplateSpec.set_Spec v (JobSpec.Template job)) job))
              (Spec x)) x.
End CronJob.

Definition emptyPodSpec : PodSpec.t := PodSpec.mk [] [] [] "" None.
Definition emptyTemplate : PodTemplateSpec.t :=
  PodTemplateSpec.mk [] emptyPodSpec.

#[global] Instance Deployment_inhabited : Inhabited Deployment.t :=
  populate (Deployment.mk ""
              (DeploymentSpec.mk None emptyTemplate
                 (DeploymentStrategy.mk "" None))).
#[global] Instance StatefulSet_inhabited : Inhabited StatefulSet.t :=
  populate (StatefulSet.mk "" (StatefulSetSpec.mk None "" emptyTemplate)).
#[global] Instance DaemonSet_inhabited : Inhabited DaemonSet.t :=
  populate (DaemonSet.mk "" (DaemonSetSpec.mk emptyTemplate 0%Z)).
#[global] Instance CronJob_inhabited : Inhabited CronJob.t :=
  populate (CronJob.mk ""
              (CronJobSpec.mk ""
                 (JobTemplateSpec.mk (JobSpec.mk None emptyTemplate)))).

(** ** The store *)

(** The heap of container security contexts and one object table per
    workload kind.  A non-nil [*appsv1.Deployment] is a key of
    [deployments], and so on. *)
Record Store := mkStore {
  contexts : gmap loc SecurityContext.t;
  deployments : gmap loc Deployment.t;
  statefulSets : gmap loc StatefulSet.t;
  daemonSets : gmap loc DaemonSet.t;
  cronJobs : gmap loc CronJob.t }.

Definition set_contexts (v : gmap loc SecurityContext.t) (s : Store) : Store :=
  mkStore v (deployments s) (statefulSets s) (daemonSets s) (cronJobs s).
Definition set_deployments (v : gmap loc Deployment.t) (s : Store) : Store :=
  mkStore (contexts s) v (statefulSets s) (daemonSets s) (cronJobs s).
Definition set_statefulSets (v : gmap loc StatefulSet.t) (s : Store) : Store :=
  mkStore (contexts s) (deployments s) v (daemonSets s) (cronJobs s).
Definition set_daemonSets (v : gmap loc DaemonSet.t) (s : Store) : Store :=
  mkStore (contexts s) (deployments s) (statefulSets s) v (cronJobs s).
Definition set_cronJobs (v : gmap loc CronJob.t) (s : Store) : Store :=
  mkStore (contexts s) (deployments s) (statefulSets s) (daemonSets s) v.

(** A computation either yields a value or panics (nil dereference); the
    store it leaves is kept in both cases. *)
Inductive Result (A : Type) := Ok (a : A) | Panic.
Arguments Ok {A} a.
Arguments Panic {A}.

Definition M (A : Type) : Type := Store → Result A * Store.

#[global] Instance M_ret : MRet M := fun A a s => (Ok a, s).
#[global] Instance M_bind : MBind M := fun A B f m s =>
  match m s with
  | (Ok a, s) => f a s
  | (Panic, s) => (Panic, s)
  end.

#[global] Instance M_fmap : FMap M := fun A B f m s =>
  match m s with
  | (Ok a, s) => (Ok (f a), s)
  | (Panic, s) => (Panic, s)
  end.

(** Run a heap computation on the security contexts of the store. *)
Definition onContexts {A} (f : Heap → A * Heap) : M A := fun s =>
  let '(a, h) := f (contexts s) in (Ok a, set_contexts h s).

(** Modelled from the spec: the reconciler types ([DeploymentReconciler],
    [StatefulSetReconciler], [DaemonSetReconciler], [CronJobReconciler]) are
    declared outside the file under verification.  Each is a function from a
    pointer to a workload object to [(object, error)]; it may read and write
    the store in any way, and may panic. *)
Definition Reconciler : Type := option loc → M (option loc * option error).

(** An object table of the store, with its getter and setter. *)
Record Table (T : Type) := mkTable {
  get : Store → gmap loc T;
  put : gmap loc T → Store → Store }.
Arguments get {T} _ _.
Arguments put {T} _ _ _.

Definition deploymentTable : Table Deployment.t :=
  mkTable _ deployments set_deployments.
Definition statefulSetTable : Table StatefulSet.t :=
  mkTable _ statefulSets set_statefulSets.
Definition daemonSetTable : Table DaemonSet.t :=
  mkTable _ daemonSets set_daemonSets.
Definition cronJobTable : Table CronJob.t :=
  mkTable _ cronJobs set_cronJobs.

(** Reading through a pointer: a nil pointer panics. *)
Definition deref {T} `{Inhabited T} (tb : Table T) (p : option loc) : M T :=
  fun s =>
    match p with
    | Some l => (Ok (get tb s !!! l), s)
    | None => (Panic, s)
    end.

(** Assigning to fields of the object behind a pointer. *)
Definition update {T} `{Inhabited T} (tb : Table T) (p : option loc)
    (f : T → T) : M unit :=
  fun s =>
    match p with
    | Some l => (Ok tt, put tb (<[l := f (get tb s !!! l)]> (get tb s)) s)
    | None => (Panic, s)
    end.

(** Allocating a new object. *)
Definition alloc {T} (tb : Table T) (v : T) : M (option loc) :=
  fun s =>
    let l := fresh (dom (get tb s)) in
    (Ok (Some l), put tb (<[l := v]> (get tb s)) s).

(** ** DefaultContainer *)

(** Body of the loop over [c.Env]. *)
Definition defaultEnvVar (e : EnvVar.t) : EnvVar.t :=
  match EnvVar.ValueFrom e with
  | Some src =>
      match EnvVarSource.FieldRef src with
      | Some ref =>
          if String.eqb (ObjectFieldSelector.APIVersion ref) ""
          then EnvVar.set_ValueFrom
                 (Some (EnvVarSource.set_FieldRef
                          (Some (ObjectFieldSelector.set_APIVersion "v1" ref))
                          src)) e
          else e
      | None => e
      end
  | None => e
  end.

(** The part of [DefaultContainer] that assigns fields of the container
    struct itself. *)
Definition defaultContainerFields (c : Container.t) : Container.t :=
  let c := if String.eqb (Container.ImagePullPolicy c) ""
           then Container.set_ImagePullPolicy corev1.PullIfNotPresent c
           else c in
  let c := if String.eqb (Container.TerminationMessagePath c) ""
           then Container.set_TerminationMessagePath
                  corev1.TerminationMessagePathDefault c
           else c in
  let c := if String.eqb (Container.TerminationMessagePolicy c) ""
           then Container.set_TerminationMessagePolicy
                  corev1.TerminationMessageReadFile c
           else c in
  Container.set_Env (defaultEnvVar <$> Container.Env c) c.

(** The write through [c.SecurityContext]. *)
Definition writeProcMount (sc : option loc)
    (procMountType : option ProcMountType) (h : Heap) : Heap :=
  match sc with
  | Some p => <[p := SecurityContext.set_ProcMount procMountType (h !!! p)]> h
  | None => h
  end.

Definition DefaultContainer (c : Container.t)
    (procMountType : option ProcMountType) (h : Heap) : Container.t * Heap :=
  let c := defaultContainerFields c in
  (c, writeProcMount (Container.SecurityContext c) procMountType h).

(** ** DefaultPodSpec *)

(** The loops filling [initContainerProcMountType] and
    [containerProcMountType]: a later container of the same name overwrites
    the entry of an earlier one. *)
Definition procMountTypes (h : Heap) (cs : list Container.t)
    : gmap string (option ProcMountType) :=
  foldl (fun m container =>
           match Container.SecurityContext container with
           | Some p =>
               <[Container.Name container :=
                   SecurityContext.ProcMount (h !!! p)]> m
           | None => m
           end) ∅ cs.

(** Go's [m[k]]: the zero value [nil] when the key is absent. *)
Definition index (m : gmap string (option ProcMountType)) (k : string)
    : option ProcMountType :=
  default None (m !! k).

(** The loops calling [DefaultContainer] on every element of a container
    slice, in order. *)
Fixpoint defaultContainers (m : gmap string (option ProcMountType))
    (cs : list Container.t) (h : Heap) : list Container.t * Heap :=
  match cs with
  | [] => ([], h)
  | container :: rest =>
      let '(c, h) :=
        DefaultContainer container (index m (Container.Name container)) h in
      let '(rest, h) := defaultContainers m rest h in
      (c :: rest, h)
  end.

(** Body of the loop over [newPodSpec.Volumes]. *)
Definition defaultVolume (vol : Volume.t) : Volume.t :=
  let src := Volume.VolumeSource vol in
  let src :=
    match VolumeSource.Secret src with
    | Some s =>
        match SecretVolumeSource.DefaultMode s with
        | None =>
            VolumeSource.set_Secret
              (Some (SecretVolumeSource.set_DefaultMode
                       (Some corev1.SecretVolumeSourceDefaultMode) s)) src
        | Some _ => src
        end
    | None => src
    end in
  let src :=
    match VolumeSource.ConfigMap src with
    | Some s =>
        match ConfigMapVolumeSource.DefaultMode s with
        | None =>
            VolumeSource.set_ConfigMap
              (Some (ConfigMapVolumeSource.set_DefaultMode
                       (Some corev1.ConfigMapVolumeSourceDefaultMode) s)) src
        | Some _ => src
        end
    | None => src
    end in
  Volume.set_VolumeSource src vol.

(** The two statements on [newPodSpec.SecurityContext]. *)
Definition defaultPodSecurityContext (sc : option PodSecurityContext.t)
    : option PodSecurityContext.t :=
  let sc := match sc with
            | None => PodSecurityContext.zero
            | Some sc => sc
            end in
  match PodSecurityContext.SeccompProfile sc with
  | None =>
      Some (PodSecurityContext.set_SeccompProfile
              (Some (SeccompProfile.mk
                       corev1.SeccompProfileTypeRuntimeDefault None)) sc)
  | Some _ => Some sc
  end.

Definition DefaultPodSpec (oldPodSpec newPodSpec : PodSpec.t) (h : Heap)
    : (PodSpec.t * option error) * Heap :=
  let initContainerProcMountType :=
    procMountTypes h (PodSpec.InitContainers oldPodSpec) in
  let containerProcMountType :=
    procMountTypes h (PodSpec.Containers oldPodSpec) in
  let '(ics, h) :=
    defaultContainers initContainerProcMountType
      (PodSpec.InitContainers newPodSpec) h in
  let newPodSpec := PodSpec.set_InitContainers ics newPodSpec in
  let '(cs, h) :=
    defaultContainers containerProcMountType
      (PodSpec.Containers newPodSpec) h in
  let newPodSpec := PodSpec.set_Containers cs newPodSpec in
  let newPodSpec :=
    PodSpec.set_Volumes (defaultVolume <$> PodSpec.Volumes newPodSpec)
      newPodSpec in
  let newPodSpec :=
    PodSpec.set_SecurityContext
      (defaultPodSecurityContext (PodSpec.SecurityContext newPodSpec))
      newPodSpec in
  ((newPodSpec, None), h).

(** ** DeepCopy

    Modelled from the spec: the generated [DeepCopy] methods are external to
    the file under verification.  They produce a fully independent copy: a
    nil receiver gives nil; otherwise a new object is allocated, and every
    container of its pod spec gets a new security context that is a copy of
    the original one. *)

Definition copySecurityContext (sc : option loc) (h : Heap)
    : option loc * Heap :=
  match sc with
  | Some p => let q := fresh (dom h) in (Some q, <[q := h !!! p]> h)
  | None => (None, h)
  end.

Fixpoint copyContainers (cs : list Container.t) (h : Heap)
    : list Container.t * Heap :=
  match cs with
  | [] => ([], h)
  | c :: rest =>
      let '(sc, h) := copySecurityContext (Container.SecurityContext c) h in
      let '(rest, h) := copyContainers rest h in
      (Container.set_SecurityContext sc c :: rest, h)
  end.

Definition PodSpec_DeepCopy (ps : PodSpec.t) (h : Heap) : PodSpec.t * Heap :=
  let '(ics, h) := copyContainers (PodSpec.InitContainers ps) h in
  let '(cs, h) := copyContainers (PodSpec.Containers ps) h in
  (PodSpec.set_Containers cs (PodSpec.set_InitContainers ics ps), h).

Definition DeepCopy {T} `{Inhabited T} (tb : Table T)
    (getPodSpec : T → PodSpec.t) (setPodSpec : PodSpec.t → T → T)
    (p : option loc) : M (option loc) :=
  match p with
  | None => mret None
  | Some _ =>
      x ← deref tb p;
      ps ← onContexts (PodSpec_DeepCopy (getPodSpec x));
      alloc tb (setPodSpec ps x)
  end.

Definition Deployment_DeepCopy : option loc → M (option loc) :=
  DeepCopy deploymentTable Deployment.PodSpec Deployment.set_PodSpec.
Definition StatefulSet_DeepCopy : option loc → M (option loc) :=
  DeepCopy statefulSetTable StatefulSet.PodSpec StatefulSet.set_PodSpec.
Definition DaemonSet_DeepCopy : option loc → M (option loc) :=
  DeepCopy daemonSetTable DaemonSet.PodSpec DaemonSet.set_PodSpec.
Definition CronJob_DeepCopy : option loc → M (option loc) :=
  DeepCopy cronJobTable CronJob.PodSpec CronJob.set_PodSpec.

(** ** The four wrappers *)

(** [&appsv1.RollingUpdateDeployment{MaxSurge: 1, MaxUnavailable: 0}] *)
Definition defaultRollingUpdate : RollingUpdateDeployment.t :=
  {| RollingUpdateDeployment.MaxSurge :=
       Some (IntOrString.mk IntOrString.Int 1%Z "");
     RollingUpdateDeployment.MaxUnavailable :=
       Some (IntOrString.mk IntOrString.Int 0%Z "") |}.

Definition DefaultDeployment (reconciler : Reconciler) : Reconciler :=
  fun d : option loc =>
    (old ← Deployment_DeepCopy d;
     '(d, err) ← reconciler d;
     match err with
     | Some err => mret (None, Some err)
     | None =>
         (strategy ← Deployment.Strategy <$> deref deploymentTable d;
          if String.eqb (DeploymentStrategy.Type_ strategy) ""
          then
            update deploymentTable d
              (fun x => Deployment.set_Strategy
                 (DeploymentStrategy.set_Type
                    appsv1.RollingUpdateDeploymentStrategyType
                    (Deployment.Strategy x)) x);;
            strategy ← Deployment.Strategy <$> deref deploymentTable d;
            match DeploymentStrategy.RollingUpdate strategy with
            | None =>
                update deploymentTable d
                  (fun x => Deployment.set_Strategy
                     (DeploymentStrategy.set_RollingUpdate
                        (Some defaultRollingUpdate)
                        (Deployment.Strategy x)) x)
            | Some _ => mret tt
            end
          else mret tt);;
         oldPodSpec ← Deployment.PodSpec <$> deref deploymentTable old;
         newPodSpec ← Deployment.PodSpec <$> deref deploymentTable d;
         '(podSpec, err) ← onContexts (DefaultPodSpec oldPodSpec newPodSpec);
         update deploymentTable d (Deployment.set_PodSpec podSpec);;
         match err with
         | Some err => mret (None, Some err)
         | None => mret (d, None)
         end
     end) : M (option loc * option error).

Definition DefaultStatefulSet (reconciler : Reconciler) : Reconciler :=
  fun ss : option loc =>
    (old ← StatefulSet_DeepCopy ss;
     '(ss, err) ← reconciler ss;
     match err with
     | Some err => mret (None, Some err)
     | None =>
         (* the left operand [ss.Spec...] is evaluated first *)
         _ ← deref statefulSetTable ss;
         oldPodSpec ← StatefulSet.PodSpec <$> deref statefulSetTable old;
         newPodSpec ← StatefulSet.PodSpec <$> deref statefulSetTable ss;
         '(podSpec, err) ← onContexts (DefaultPodSpec oldPodSpec newPodSpec);
         update statefulSetTable ss (StatefulSet.set_PodSpec podSpec);;
         match err with
         | Some err => mret (None, Some err)
         | None => mret (ss, None)
         end
     end) : M (option loc * option error).

Definition DefaultDaemonSet (reconciler : Reconciler) : Reconciler :=
  fun ds : option loc =>
    (old ← DaemonSet_DeepCopy ds;
     '(ds, err) ← reconciler ds;
     match err with
     | Some err => mret (None, Some err)
     | None =>
         (* the left operand [ds.Spec...] is evaluated first *)
         _ ← deref daemonSetTable ds;
         oldPodSpec ← DaemonSet.PodSpec <$> deref daemonSetTable old;
         newPodSpec ← DaemonSet.PodSpec <$> deref daemonSetTable ds;
         '(podSpec, err) ← onContexts (DefaultPodSpec oldPodSpec newPodSpec);
         update daemonSetTable ds (DaemonSet.set_PodSpec podSpec);;
         match err with
         | Some err => mret (None, Some err)
         | None => mret (ds, None)
         end
     end) : M (option loc * option error).

Definition DefaultCronJob (reconciler : Reconciler) : Reconciler :=
  fun cj : option loc =>
    (old ← CronJob_DeepCopy cj;
     '(cj, err) ← reconciler cj;
     match err with
     | Some err => mret (None, Some err)
     | None =>
         (* the left operand [cj.Spec...] is evaluated first *)
         _ ← deref cronJobTable cj;
         oldPodSpec ← CronJob.PodSpec <$> deref cronJobTable old;
         newPodSpec ← CronJob.PodSpec <$> deref cronJobTable cj;
         '(podSpec, err) ← onContexts (DefaultPodSpec oldPodSpec newPodSpec);
         update cronJobTable cj (CronJob.set_PodSpec podSpec);;
         match err with
         | Some err => mret (None, Some err)
         | None => mret (cj, None)
         end
     end) : M (option loc * option error).

(** ** Definitions used by the statements and their proofs *)

(** The value bound to [k] by the last pair of [l] whose key is [k]: what a
    fold of inserts over [l] leaves at key [k]. *)
Fixpoint lastBinding {K : Type} `{EqDecision K} {V : Type}
    (k : K) (l : list (K * V)) : option V :=
  match l with
  | [] => None
  | (k', v) :: l =>
      match lastBinding k l with
      | Some v' => Some v'
      | None => if decide (k' = k) then Some v else None
      end
  end.

(** The bindings inserted, in order, by the loop that fills a table. *)
Definition tableEntries (h : Heap) (cs : list Container.t)
    : list (string * option ProcMountType) :=
  omap (fun container =>
          match Container.SecurityContext container with
          | Some p =>
              Some (Container.Name container,
                    SecurityContext.ProcMount (h !!! p))
          | None => None
          end) cs.

(** The writes [p.ProcMount = v] performed, in order, by a container loop. *)
Definition pendingWrites (m : gmap string (option ProcMountType))
    (cs : list Container.t) : list (loc * option ProcMountType) :=
  omap (fun container =>
          match Container.SecurityContext container with
          | Some p => Some (p, index m (Container.Name container))
          | None => None
          end) cs.

(** ** The two container lists of a pod spec *)

Inductive slot := Init | Main.

Definition containersOf (k : slot) (ps : PodSpec.t) : list Container.t :=
  match k with
  | Init => PodSpec.InitContainers ps
  | Main => PodSpec.Containers ps
  end.

(** The heap between the two container loops of [DefaultPodSpec]. *)
Definition heapAfterInit (oldPodSpec newPodSpec : PodSpec.t) (h : Heap)
    : Heap :=
  (defaultContainers (procMountTypes h (PodSpec.InitContainers oldPodSpec))
     (PodSpec.InitContainers newPodSpec) h).2.

(** The descriptor [p] of the container at position [i] of list [k] is held
    by no container that the loops of [DefaultPodSpec] visit after it: no
    later container of the same list and, for an init container, no main
    container. *)
Definition notHeldLater (k : slot) (newPodSpec : PodSpec.t) (i : nat)
    (p : loc) : Prop :=
  Forall (fun c' => Container.SecurityContext c' ≠ Some p)
         (drop (S i) (containersOf k newPodSpec))
  ∧ match k with
    | Init =>
        Forall (fun c' => Container.SecurityContext c' ≠ Some p)
               (PodSpec.Containers newPodSpec)
    | Main => True
    end.

(** The security descriptors held by the containers of a pod spec. *)
Definition descriptorsOf (ps : PodSpec.t) : list loc :=
  omap Container.SecurityContext
       (PodSpec.InitContainers ps ++ PodSpec.Containers ps)%list.

(** All writes of one call, in the order they happen. *)
Definition allWrites (oldPodSpec newPodSpec : PodSpec.t) (h : Heap)
    : list (loc * option ProcMountType) :=
  (pendingWrites (procMountTypes h (PodSpec.InitContainers oldPodSpec))
     (PodSpec.InitContainers newPodSpec)
   ++ pendingWrites (procMountTypes h (PodSpec.Containers oldPodSpec))
        (PodSpec.Containers newPodSpec))%list.

Inductive WorkloadKind := KDeployment | KStatefulSet | KDaemonSet | KCronJob.

Definition wrapper (k : WorkloadKind) : Reconciler → Reconciler :=
  match k with
  | KDeployment => DefaultDeployment
  | KStatefulSet => DefaultStatefulSet
  | KDaemonSet => DefaultDaemonSet
  | KCronJob => DefaultCronJob
  end.

Definition deepCopy (k : WorkloadKind) : option loc → M (option loc) :=
  match k with
  | KDeployment => Deployment_DeepCopy
  | KStatefulSet => StatefulSet_DeepCopy
  | KDaemonSet => DaemonSet_DeepCopy
  | KCronJob => CronJob_DeepCopy
  end.

(** Every object of [s] is still there, with the same contents, in [s']. *)
Definition preserved (s s' : Store) : Prop :=
  contexts s ⊆ contexts s'
  ∧ deployments s ⊆ deployments s'
  ∧ statefulSets s ⊆ statefulSets s'
  ∧ daemonSets s ⊆ daemonSets s'
  ∧ cronJobs s ⊆ cronJobs s'.

(** The block [if d.Spec.Strategy.Type == "" { ... }] of
    [DefaultDeployment]. *)
Definition strategyBlock (d : option loc) : M unit :=
  strategy ← Deployment.Strategy <$> deref deploymentTable d;
  if String.eqb (DeploymentStrategy.Type_ strategy) ""
  then
    update deploymentTable d
      (fun x => Deployment.set_Strategy
         (DeploymentStrategy.set_Type
            appsv1.RollingUpdateDeploymentStrategyType
            (Deployment.Strategy x)) x);;
    strategy ← Deployment.Strategy <$> deref deploymentTable d;
    match DeploymentStrategy.RollingUpdate strategy with
    | None =>
        update deploymentTable d
          (fun x => Deployment.set_Strategy
             (DeploymentStrategy.set_RollingUpdate
                (Some defaultRollingUpdate)
                (Deployment.Strategy x)) x)
    | Some _ => mret tt
    end
  else mret tt.

(** The statements of [DefaultDeployment] from the call of [DefaultPodSpec]
    to the end. *)
Definition templateBlock (old d : option loc)
    : M (option loc * option error) :=
  oldPodSpec ← Deployment.PodSpec <$> deref deploymentTable old;
  newPodSpec ← Deployment.PodSpec <$> deref deploymentTable d;
  '(podSpec, err) ← onContexts (DefaultPodSpec oldPodSpec newPodSpec);
  update deploymentTable d (Deployment.set_PodSpec podSpec);;
  match err with
  | Some err => mret (None, Some err)
  | None => mret (d, None)
  end.

(** ** Concrete pod specs used by the examples *)

Definition container (name : string) (sc : option loc) : Container.t :=
  Container.mk name "registry.local/image:1" [] "" "" "" sc.

Definition withProcMount (v : option ProcMountType) : SecurityContext.t :=
  SecurityContext.mk None (Some 1000%Z) None None v.

Definition podSpec (ics cs : list Container.t) : PodSpec.t :=
  PodSpec.mk [] ics cs "default" None.

(** One old container "app" with mode "Unmasked" behind location 1; the new
    "app" has a descriptor of its own behind location 2 with no mode. *)
Definition heap_app : Heap :=
  <[1%positive := withProcMount (Some "Unmasked")]>
  (<[2%positive := withProcMount None]> ∅).
Definition old_app : PodSpec.t := podSpec [] [container "app" (Some 1%positive)].
Definition new_app : PodSpec.t := podSpec [] [container "app" (Some 2%positive)].

(** Two old containers are both named "app", with different modes. *)
Definition heap_dup : Heap :=
  <[1%positive := withProcMount (Some "Unmasked")]>
  (<[2%positive := withProcMount (Some "Default")]>
  (<[3%positive := withProcMount None]> ∅)).
Definition old_dup : PodSpec.t :=
  podSpec [] [container "app" (Some 1%positive);
              container "app" (Some 2%positive)].
Definition new_dup : PodSpec.t := podSpec [] [container "app" (Some 3%positive)].

(** The new containers "app" and "sidecar" hold the same descriptor. *)
Definition new_shared : PodSpec.t :=
  podSpec [] [container "app" (Some 2%positive);
              container "sidecar" (Some 2%positive)].

(** The old pod spec has "sidecar" with mode "Default"; it has no "app". *)
Definition old_sidecar : PodSpec.t :=
  podSpec [] [container "sidecar" (Some 1%positive)].
Definition heap_sidecar : Heap :=
  <[1%positive := withProcMount (Some "Default")]>
  (<[2%positive := withProcMount (Some "Unmasked")]> ∅).

Definition new_bare : PodSpec.t := podSpec [] [container "app" None].

(** "app" is an old main container with mode "Unmasked"; the new pod spec
    has "app" both as init and as main container, with one descriptor. *)
Definition new_both_shared : PodSpec.t :=
  podSpec [container "app" (Some 2%positive)]
          [container "app" (Some 2%positive)].
Definition new_both : PodSpec.t :=
  podSpec [container "app" (Some 2%positive)]
          [container "app" (Some 3%positive)].

(** A secret volume with mode 0400 and a config-map volume without mode. *)
Definition new_volumes : PodSpec.t :=
  PodSpec.mk
    [Volume.mk "tls"
       (VolumeSource.mk None
          (Some (SecretVolumeSource.mk "tls-secret" (Some 256%Z) None)) None);
     Volume.mk "config"
       (VolumeSource.mk None None
          (Some (ConfigMapVolumeSource.mk "settings" None None)))]
    [] [container "app" None] "default" None.

(** The baseline holds the descriptor of the new container "sidecar". *)
Definition new_app_sidecar : PodSpec.t :=
  podSpec [] [container "app" (Some 2%positive);
              container "sidecar" (Some 1%positive)].

(** A store with one Deployment (at location 1) whose strategy is unset and
    whose pod spec is [new_app]. *)
Definition deployment_app : Deployment.t :=
  Deployment.mk "app"
    (DeploymentSpec.mk (Some 2%Z) (PodTemplateSpec.mk [] new_app)
       (DeploymentStrategy.mk "" None)).
Definition store_app : Store :=
  mkStore heap_app {[1%positive := deployment_app]} ∅ ∅ ∅.

(** An inner reconciler that changes the replica count and then fails. *)
Definition failingReconciler : Reconciler := fun d =>
  update deploymentTable d
    (fun x => Deployment.set_Spec
       (DeploymentSpec.mk (Some 5%Z) (DeploymentSpec.Template (Deployment.Spec x))
          (DeploymentSpec.Strategy (Deployment.Spec x))) x);;
  mret (d, Some "quota exceeded").

(** An inner reconciler that returns its argument unchanged. *)
Definition idReconciler : Reconciler := fun d => mret (d, None).

(** A store whose Deployment runs "app" with mode "Unmasked" (descriptor at
    location 1), and an inner reconciler that replaces the whole pod spec by
    one whose "app" has a new descriptor, at location 9, without a mode. *)
Definition store_live : Store :=
  mkStore
    (<[1%positive := withProcMount (Some "Unmasked")]>
     (<[9%positive := withProcMount None]> ∅))
    {[1%positive :=
        Deployment.mk "app"
          (DeploymentSpec.mk (Some 2%Z) (PodTemplateSpec.mk [] old_app)
             (DeploymentStrategy.mk "" None))]} ∅ ∅ ∅.
Definition replacingReconciler : Reconciler := fun d =>
  update deploymentTable d
    (Deployment.set_PodSpec (podSpec [] [container "app" (Some 9%positive)]));;
  mret (d, None).

(** A store whose Deployment has strategy type "Recreate" and no
    rolling-update parameters. *)
Definition store_recreate : Store :=
  mkStore heap_app
    {[1%positive :=
        Deployment.set_Strategy (DeploymentStrategy.mk "Recreate" None)
          deployment_app]} ∅ ∅ ∅.

(** ** Normal form *)

(** An environment entry needs no defaulting: a field reference, if there is
    one, has an API version. *)
Definition envVarDefaulted (e : EnvVar.t) : bool :=
  match EnvVar.ValueFrom e with
  | Some src =>
      match EnvVarSource.FieldRef src with
      | Some ref => negb (String.eqb (ObjectFieldSelector.APIVersion ref) "")
      | None => true
      end
  | None => true
  end.

(** A container needs no defaulting of its own fields. *)
Definition containerDefaulted (c : Container.t) : bool :=
  negb (String.eqb (Container.ImagePullPolicy c) "")
  && negb (String.eqb (Container.TerminationMessagePath c) "")
  && negb (String.eqb (Container.TerminationMessagePolicy c) "")
  && forallb envVarDefaulted (Container.Env c).

(** A volume needs no defaulting: a secret or config-map source, if there is
    one, has a mode. *)
Definition volumeDefaulted (vol : Volume.t) : bool :=
  match VolumeSource.Secret (Volume.VolumeSource vol) with
  | Some s => bool_decide (SecretVolumeSource.DefaultMode s ≠ None)
  | None => true
  end
  && match VolumeSource.ConfigMap (Volume.VolumeSource vol) with
     | Some s => bool_decide (ConfigMapVolumeSource.DefaultMode s ≠ None)
     | None => true
     end.

(** A pod spec in which every field that [DefaultPodSpec] fills is set. *)
Definition podSpecDefaulted (ps : PodSpec.t) : bool :=
  forallb containerDefaulted (PodSpec.InitContainers ps)
  && forallb containerDefaulted (PodSpec.Containers ps)
  && forallb volumeDefaulted (PodSpec.Volumes ps)
  && match PodSpec.SecurityContext ps with
     | Some sc =>
         bool_decide (PodSecurityContext.SeccompProfile sc ≠ None)
     | None => false
     end.

(** ** The wrappers, by parts *)

(** The statements every wrapper ends with: the call of [DefaultPodSpec] on
    the pod specs of [old] and [d], the assignment of its result and the
    return. *)
Definition normalizeTemplate {T} `{Inhabited T} (tb : Table T)
    (getPodSpec : T → PodSpec.t) (setPodSpec : PodSpec.t → T → T)
    (old d : option loc) : M (option loc * option error) :=
  oldPodSpec ← getPodSpec <$> deref tb old;
  newPodSpec ← getPodSpec <$> deref tb d;
  '(podSpec, err) ← onContexts (DefaultPodSpec oldPodSpec newPodSpec);
  update tb d (setPodSpec podSpec);;
  match err with
  | Some err => mret (None, Some err)
  | None => mret (d, None)
  end.

(** The pod spec of the workload object of kind [k] at location [l]. *)
Definition podSpecAt (k : WorkloadKind) (s : Store) (l : loc) : PodSpec.t :=
  match k with
  | KDeployment => Deployment.PodSpec (deployments s !!! l)
  | KStatefulSet => StatefulSet.PodSpec (statefulSets s !!! l)
  | KDaemonSet => DaemonSet.PodSpec (daemonSets s !!! l)
  | KCronJob => CronJob.PodSpec (cronJobs s !!! l)
  end.

(** The store a wrapper leaves when the inner reconciler succeeded. *)
Definition successStore (k : WorkloadKind) (s1 s2 : Store) (o d : loc)
    : Prop :=
  let r := DefaultPodSpec (podSpecAt k s1 o) (podSpecAt k s1 d)
             (contexts s1) in
  contexts s2 = r.2
  ∧ (∀ l, k ≠ KDeployment ∨ l ≠ d → deployments s2 !! l = deployments s1 !! l)
  ∧ (∀ l, k ≠ KStatefulSet ∨ l ≠ d →
          statefulSets s2 !! l = statefulSets s1 !! l)
  ∧ (∀ l, k ≠ KDaemonSet ∨ l ≠ d → daemonSets s2 !! l = daemonSets s1 !! l)
  ∧ (∀ l, k ≠ KCronJob ∨ l ≠ d → cronJobs s2 !! l = cronJobs s1 !! l)
  ∧ match k with
    | KDeployment =>
        ∃ st, DeploymentStrategy.Type_ st ≠ ""
              ∧ (DeploymentStrategy.Type_
                   (Deployment.Strategy (deployments s1 !!! d)) ≠ "" →
                 st = Deployment.Strategy (deployments s1 !!! d))
              ∧ deployments s2 !! d
                = Some (Deployment.set_PodSpec r.1.1
                          (Deployment.set_Strategy st (deployments s1 !!! d)))
    | KStatefulSet =>
        statefulSets s2 !! d
        = Some (StatefulSet.set_PodSpec r.1.1 (statefulSets s1 !!! d))
    | KDaemonSet =>
        daemonSets s2 !! d
        = Some (DaemonSet.set_PodSpec r.1.1 (daemonSets s1 !!! d))
    | KCronJob =>
        cronJobs s2 !! d
        = Some (CronJob.set_PodSpec r.1.1 (cronJobs s1 !!! d))
    end.

(** [c'] is the deep copy of [c], taken in heap [h] and found in heap [h']:
    it has the same name; it has a security context exactly when [c] has
    one, and the contents are those [c]'s one had in [h]. *)
Definition copyOf (h h' : Heap) (c c' : Container.t) : Prop :=
  Container.Name c' = Container.Name c
  ∧ match Container.SecurityContext c with
    | None => Container.SecurityContext c' = None
    | Some p =>
        ∃ q, Container.SecurityContext c' = Some q
             ∧ (is_Some (h !! p) → h' !! q = Some (h !!! p))
    end.

(** The store holds a workload object of kind [k] at location [l]. *)
Definition allocatedAt (k : WorkloadKind) (s : Store) (l : loc) : Prop :=
  match k with
  | KDeployment => is_Some (deployments s !! l)
  | KStatefulSet => is_Some (statefulSets s !! l)
  | KDaemonSet => is_Some (daemonSets s !! l)
  | KCronJob => is_Some (cronJobs s !! l)
  end.

(** ** Further concrete inputs *)

(** A container whose second environment entry reads a pod field without
    naming an API version. *)
Definition container_env : Container.t :=
  Container.mk "app" "img"
    [EnvVar.mk "MODE" "fast" None;
     EnvVar.mk "POD_IP" ""
       (Some (EnvVarSource.mk
                (Some (ObjectFieldSelector.mk "" "status.podIP")) None))]
    "" "" "" None.

(** A store with one CronJob (at location 1) whose pod spec is [new_app]. *)
Definition cronJob_app : CronJob.t :=
  CronJob.mk "app"
    (CronJobSpec.mk "*/5 * * * *"
       (JobTemplateSpec.mk
          (JobSpec.mk (Some 1%Z) (PodTemplateSpec.mk [] new_app)))).
Definition store_cron : Store :=
  mkStore heap_app ∅ ∅ ∅ {[1%positive := cronJob_app]}.

(** An inner reconciler that returns neither an object nor an error. *)
Definition nilReconciler : Reconciler := fun _ => mret (None, None).

(** Two old containers with distinct names, in either order. *)
Definition old_two : PodSpec.t :=
  podSpec [] [container "app" (Some 2%positive);
              container "sidecar" (Some 1%positive)].
Definition old_two_swapped : PodSpec.t :=
  podSpec [] [container "sidecar" (Some 1%positive);
              container "app" (Some 2%positive)].

(** A store whose Deployment (at location 1) is already defaulted; its
    container "app" has mode "Unmasked". *)
Definition podSpec_defaulted : PodSpec.t :=
  PodSpec.mk []
    []
    [Container.mk "app" "registry.local/image:1" [] "IfNotPresent"
       "/dev/termination-log" "File" (Some 1%positive)]
    "default"
    (Some (PodSecurityContext.mk None None None
             (Some (SeccompProfile.mk "RuntimeDefault" None)))).
Definition store_defaulted : Store :=
  mkStore
    {[1%positive := withProcMount (Some "Unmasked")]}
    {[1%positive :=
        Deployment.mk "app"
          (DeploymentSpec.mk (Some 2%Z)
             (PodTemplateSpec.mk [] podSpec_defaulted)
             (DeploymentStrategy.mk "Recreate" None))]} ∅ ∅ ∅.

(** * Properties *)

(** ** Facts about [DefaultContainer] *)

Lemma defaultContainerFields_Name c :
  Container.Name (defaultContainerFields c) = Container.Name c.
Proof.
  unfold defaultContainerFields.
  repeat (case (String.eqb _ _); cbn); reflexivity.
Qed.

Lemma defaultContainerFields_SecurityContext c :
  Container.SecurityContext (defaultContainerFields c)
  = Container.SecurityContext c.
Proof.
  unfold defaultContainerFields.
  repeat (case (String.eqb _ _); cbn); reflexivity.
Qed.

Lemma defaultEnvVar_idem e : defaultEnvVar (defaultEnvVar e) = defaultEnvVar e.
Proof.
  destruct e as [n v [[[[a f]|] k]|]]; cbn; try reflexivity.
  destruct (String.eqb a "") eqn:E; cbn; [reflexivity|].
  rewrite E. reflexivity.
Qed.

Lemma fmap_defaultEnvVar_idem (l : list EnvVar.t) :
  defaultEnvVar <$> (defaultEnvVar <$> l) = defaultEnvVar <$> l.
Proof.
  rewrite <- list_fmap_compose. apply list_fmap_ext.
  intros _ e _. apply defaultEnvVar_idem.
Qed.

Lemma defaultContainerFields_idem c :
  defaultContainerFields (defaultContainerFields c) = defaultContainerFields c.
Proof.
  destruct c as [n i e [|a1 pp] [|a2 tp] [|a3 tpol] sc];
    unfold defaultContainerFields; cbn -[fmap defaultEnvVar];
    unfold Container.set_Env; cbn -[fmap defaultEnvVar];
    rewrite fmap_defaultEnvVar_idem; reflexivity.
Qed.

(** ** Folds of inserts: the last binding of a key wins *)

Section last_binding.
Context {K : Type} `{EqDecision K} {V : Type}.
Implicit Types (k : K) (l : list (K * V)).

Lemma lastBinding_app k l1 l2 :
  lastBinding k (l1 ++ l2)
  = match lastBinding k l2 with
    | Some v => Some v
    | None => lastBinding k l1
    end.
Proof.
  induction l1 as [|[k' v] l1 IH]; cbn.
  - destruct (lastBinding k l2); reflexivity.
  - rewrite IH. destruct (lastBinding k l2); reflexivity.
Qed.

Lemma lastBinding_None k l :
  lastBinding k l = None ↔ ∀ v, (k, v) ∉ l.
Proof.
  induction l as [|[k' v'] l IH]; cbn.
  - split; [intros _ v Hin; inversion Hin | reflexivity].
  - destruct (lastBinding k l) as [w|] eqn:E.
    + split; [discriminate|]. intros Hno.
      assert (Some w = None) as Hw; [|discriminate].
      apply IH. intros v Hin. apply (Hno v). by right.
    + destruct (decide (k' = k)) as [->|Hne].
      * split; [discriminate|]. intros Hno. destruct (Hno v'). by left.
      * split; [|reflexivity]. intros _ v Hin.
        apply elem_of_cons in Hin as [Heq|Hin]; [congruence|].
        destruct IH as [IH _]. by apply (IH eq_refl v).
Qed.

End last_binding.

(** ** The lookup tables and the heap after the container loops *)

Lemma procMountTypes_fold h cs (m0 : gmap string (option ProcMountType)) n :
  foldl (fun m container =>
           match Container.SecurityContext container with
           | Some p =>
               <[Container.Name container :=
                   SecurityContext.ProcMount (h !!! p)]> m
           | None => m
           end) m0 cs !! n
  = match lastBinding n (tableEntries h cs) with
    | Some v => Some v
    | None => m0 !! n
    end.
Proof.
  revert m0. induction cs as [|c cs IH]; intros m0; [reflexivity|].
  cbn [foldl]. rewrite IH. unfold tableEntries. cbn [omap list_omap].
  fold (tableEntries h cs).
  destruct (Container.SecurityContext c) as [p|]; [|reflexivity].
  cbn [lastBinding].
  destruct (lastBinding n (tableEntries h cs)); [reflexivity|].
  rewrite lookup_insert. destruct (decide (Container.Name c = n)); reflexivity.
Qed.

Lemma procMountTypes_lookup h cs n :
  procMountTypes h cs !! n = lastBinding n (tableEntries h cs).
Proof.
  unfold procMountTypes. rewrite procMountTypes_fold, lookup_empty.
  destruct (lastBinding n (tableEntries h cs)); reflexivity.
Qed.

Lemma index_procMountTypes h cs n :
  index (procMountTypes h cs) n
  = default None (lastBinding n (tableEntries h cs)).
Proof. unfold index. rewrite procMountTypes_lookup. reflexivity. Qed.

Lemma defaultContainers_fst m cs h :
  (defaultContainers m cs h).1 = defaultContainerFields <$> cs.
Proof.
  revert h. induction cs as [|c cs IH]; intros h; [reflexivity|].
  cbn [defaultContainers DefaultContainer].
  match goal with |- context [defaultContainers m cs ?h'] =>
    specialize (IH h'); destruct (defaultContainers m cs h') as [rest h2]
  end.
  cbn in *. by rewrite IH.
Qed.

Lemma defaultContainers_snd m cs h p :
  (defaultContainers m cs h).2 !! p
  = match lastBinding p (pendingWrites m cs) with
    | Some v => Some (SecurityContext.set_ProcMount v (h !!! p))
    | None => h !! p
    end.
Proof.
  revert h. induction cs as [|c cs IH]; intros h; [reflexivity|].
  cbn [defaultContainers DefaultContainer].
  match goal with |- context [defaultContainers m cs ?h'] =>
    specialize (IH h'); destruct (defaultContainers m cs h') as [rest h2]
  end.
  cbn [snd] in *. rewrite IH. clear IH.
  rewrite defaultContainerFields_SecurityContext.
  unfold pendingWrites. cbn [omap list_omap]. fold (pendingWrites m cs).
  destruct (Container.SecurityContext c) as [q|]; cbn [writeProcMount];
    [|reflexivity].
  cbn [lastBinding].
  destruct (lastBinding p (pendingWrites m cs)) as [v|].
  - destruct (decide (q = p)) as [->|Hne].
    + by rewrite lookup_total_insert_eq.
    + by rewrite lookup_total_insert_ne.
  - rewrite lookup_insert. destruct (decide (q = p)) as [->|]; reflexivity.
Qed.

Lemma defaultContainers_snd_total m cs h p :
  (defaultContainers m cs h).2 !!! p
  = match lastBinding p (pendingWrites m cs) with
    | Some v => SecurityContext.set_ProcMount v (h !!! p)
    | None => h !!! p
    end.
Proof.
  rewrite !lookup_total_alt, defaultContainers_snd.
  destruct (lastBinding p (pendingWrites m cs)); reflexivity.
Qed.

Lemma elem_of_pendingWrites m cs p v :
  (p, v) ∈ pendingWrites m cs →
  ∃ c, c ∈ cs ∧ Container.SecurityContext c = Some p.
Proof.
  unfold pendingWrites. rewrite list_elem_of_omap.
  intros (c & Hin & Hc). exists c. split; [done|].
  destruct (Container.SecurityContext c); congruence.
Qed.

Lemma elem_of_tableEntries h cs n v :
  (n, v) ∈ tableEntries h cs →
  ∃ c, c ∈ cs ∧ Container.Name c = n ∧ Container.SecurityContext c ≠ None.
Proof.
  unfold tableEntries. rewrite list_elem_of_omap.
  intros (c & Hin & Hc). exists c. split; [done|].
  destruct (Container.SecurityContext c); [|discriminate].
  split; congruence.
Qed.

Lemma pendingWrites_none m cs p :
  Forall (fun c => Container.SecurityContext c ≠ Some p) cs →
  lastBinding p (pendingWrites m cs) = None.
Proof.
  rewrite Forall_forall. intros Hno. apply lastBinding_None. intros v Hin.
  apply elem_of_pendingWrites in Hin as (c & Hc & Hsc). by apply (Hno c).
Qed.

Lemma pendingWrites_last m cs i c p :
  cs !! i = Some c →
  Container.SecurityContext c = Some p →
  Forall (fun c' => Container.SecurityContext c' ≠ Some p) (drop (S i) cs) →
  lastBinding p (pendingWrites m cs) = Some (index m (Container.Name c)).
Proof.
  intros Hi Hsc Hlater.
  rewrite <- (take_drop_middle cs i c Hi).
  unfold pendingWrites. rewrite omap_app. cbn [omap list_omap].
  rewrite Hsc. fold (pendingWrites m (take i cs)).
  fold (pendingWrites m (drop (S i) cs)).
  rewrite lastBinding_app. cbn [lastBinding].
  rewrite pendingWrites_none by done. by rewrite decide_True.
Qed.

Lemma tableEntries_none h cs n :
  Forall (fun c => Container.Name c = n → Container.SecurityContext c = None)
         cs →
  lastBinding n (tableEntries h cs) = None.
Proof.
  rewrite Forall_forall. intros Hno. apply lastBinding_None. intros v Hin.
  apply elem_of_tableEntries in Hin as (c & Hc & Hn & Hsc).
  by apply Hsc, Hno.
Qed.

Lemma tableEntries_last h cs j c p :
  cs !! j = Some c →
  Container.SecurityContext c = Some p →
  Forall (fun c' => Container.Name c' = Container.Name c →
                    Container.SecurityContext c' = None) (drop (S j) cs) →
  lastBinding (Container.Name c) (tableEntries h cs)
  = Some (SecurityContext.ProcMount (h !!! p)).
Proof.
  intros Hj Hsc Hlater.
  rewrite <- (take_drop_middle cs j c Hj).
  unfold tableEntries. rewrite omap_app. cbn [omap list_omap].
  rewrite Hsc. fold (tableEntries h (take j cs)).
  fold (tableEntries h (drop (S j) cs)).
  rewrite lastBinding_app. cbn [lastBinding].
  rewrite tableEntries_none by done. by rewrite decide_True.
Qed.

Lemma DefaultPodSpec_heap oldPodSpec newPodSpec h :
  (DefaultPodSpec oldPodSpec newPodSpec h).2
  = (defaultContainers (procMountTypes h (PodSpec.Containers oldPodSpec))
       (PodSpec.Containers newPodSpec)
       (heapAfterInit oldPodSpec newPodSpec h)).2.
Proof.
  unfold DefaultPodSpec, heapAfterInit.
  destruct (defaultContainers _ (PodSpec.InitContainers newPodSpec) h)
    as [ics h1].
  cbn [PodSpec.set_InitContainers PodSpec.Containers snd].
  destruct (defaultContainers _ (PodSpec.Containers newPodSpec) h1)
    as [cs h2].
  reflexivity.
Qed.

Lemma DefaultPodSpec_spec oldPodSpec newPodSpec h :
  (DefaultPodSpec oldPodSpec newPodSpec h).1
  = (PodSpec.mk
       (defaultVolume <$> PodSpec.Volumes newPodSpec)
       (defaultContainerFields <$> PodSpec.InitContainers newPodSpec)
       (defaultContainerFields <$> PodSpec.Containers newPodSpec)
       (PodSpec.ServiceAccountName newPodSpec)
       (defaultPodSecurityContext (PodSpec.SecurityContext newPodSpec)),
     None).
Proof.
  unfold DefaultPodSpec.
  pose proof (defaultContainers_fst
    (procMountTypes h (PodSpec.InitContainers oldPodSpec))
    (PodSpec.InitContainers newPodSpec) h) as H1.
  destruct (defaultContainers _ (PodSpec.InitContainers newPodSpec) h)
    as [ics h1].
  cbn [PodSpec.set_InitContainers PodSpec.Containers].
  pose proof (defaultContainers_fst
    (procMountTypes h (PodSpec.Containers oldPodSpec))
    (PodSpec.Containers newPodSpec) h1) as H2.
  destruct (defaultContainers _ (PodSpec.Containers newPodSpec) h1)
    as [cs h2].
  cbn in *. subst. reflexivity.
Qed.

Lemma DefaultPodSpec_containers k oldPodSpec newPodSpec h :
  containersOf k (DefaultPodSpec oldPodSpec newPodSpec h).1.1
  = defaultContainerFields <$> containersOf k newPodSpec.
Proof. rewrite DefaultPodSpec_spec. by destruct k. Qed.

(** The isolation mode found behind [p] once [DefaultPodSpec] has returned,
    for a container of list [k] whose descriptor is not held later: the entry
    of its name in the table built from list [k] of the old pod spec. *)
Lemma DefaultPodSpec_ProcMount k oldPodSpec newPodSpec h i c p :
  containersOf k newPodSpec !! i = Some c →
  Container.SecurityContext c = Some p →
  notHeldLater k newPodSpec i p →
  SecurityContext.ProcMount
    ((DefaultPodSpec oldPodSpec newPodSpec h).2 !!! p)
  = index (procMountTypes h (containersOf k oldPodSpec)) (Container.Name c).
Proof.
  intros Hi Hsc [Hlater Hmain].
  rewrite DefaultPodSpec_heap, defaultContainers_snd_total.
  destruct k; cbn [containersOf] in *.
  - rewrite pendingWrites_none by done.
    unfold heapAfterInit. rewrite defaultContainers_snd_total.
    by rewrite (pendingWrites_last _ _ i c p).
  - by rewrite (pendingWrites_last _ _ i c p).
Qed.

Lemma DefaultPodSpec_lookup k oldPodSpec newPodSpec h i c :
  containersOf k newPodSpec !! i = Some c →
  containersOf k (DefaultPodSpec oldPodSpec newPodSpec h).1.1 !! i
  = Some (defaultContainerFields c).
Proof.
  intros Hi. by rewrite DefaultPodSpec_containers, list_lookup_fmap, Hi.
Qed.

Lemma defaultVolume_idem vol :
  defaultVolume (defaultVolume vol) = defaultVolume vol.
Proof.
  destruct vol as [n [hp [[sn [m|] o]|] [[cn [m'|] o']|]]]; reflexivity.
Qed.

Lemma defaultPodSecurityContext_idem sc :
  defaultPodSecurityContext (defaultPodSecurityContext sc)
  = defaultPodSecurityContext sc.
Proof. destruct sc as [[u r f [prof|]]|]; reflexivity. Qed.

Lemma DefaultPodSpec_heap_lookup oldPodSpec newPodSpec h p :
  (DefaultPodSpec oldPodSpec newPodSpec h).2 !! p
  = match lastBinding p (allWrites oldPodSpec newPodSpec h) with
    | Some v => Some (SecurityContext.set_ProcMount v (h !!! p))
    | None => h !! p
    end.
Proof.
  rewrite DefaultPodSpec_heap, defaultContainers_snd.
  unfold allWrites, heapAfterInit. rewrite lastBinding_app.
  destruct (lastBinding p (pendingWrites _ (PodSpec.Containers newPodSpec)))
    as [v|].
  - rewrite defaultContainers_snd_total.
    by destruct (lastBinding p
                   (pendingWrites _ (PodSpec.InitContainers newPodSpec))).
  - by rewrite defaultContainers_snd.
Qed.

Lemma pendingWrites_fmap_fields m cs :
  pendingWrites m (defaultContainerFields <$> cs) = pendingWrites m cs.
Proof.
  induction cs as [|c cs IH]; [reflexivity|].
  cbn [fmap list_fmap]. unfold pendingWrites. cbn [omap list_omap].
  fold (pendingWrites m (defaultContainerFields <$> cs)).
  fold (pendingWrites m cs).
  by rewrite defaultContainerFields_SecurityContext,
             defaultContainerFields_Name, IH.
Qed.

Lemma tableEntries_agree h h' cs :
  Forall (fun c => ∀ p, Container.SecurityContext c = Some p →
                        h' !!! p = h !!! p) cs →
  tableEntries h' cs = tableEntries h cs.
Proof.
  induction 1 as [|c cs Hc _ IH]; [reflexivity|].
  unfold tableEntries. cbn [omap list_omap].
  fold (tableEntries h' cs). fold (tableEntries h cs). rewrite IH.
  destruct (Container.SecurityContext c) as [p|]; [|reflexivity].
  by rewrite (Hc p eq_refl).
Qed.

Lemma procMountTypes_agree h h' cs :
  Forall (fun c => ∀ p, Container.SecurityContext c = Some p →
                        h' !!! p = h !!! p) cs →
  procMountTypes h' cs = procMountTypes h cs.
Proof.
  intros Hcs. apply map_eq. intros n.
  by rewrite !procMountTypes_lookup, (tableEntries_agree h h').
Qed.

Lemma elem_of_descriptorsOf ps p :
  p ∈ descriptorsOf ps ↔
  ∃ c, c ∈ (PodSpec.InitContainers ps ++ PodSpec.Containers ps)%list
       ∧ Container.SecurityContext c = Some p.
Proof. unfold descriptorsOf. by rewrite list_elem_of_omap. Qed.

Lemma allWrites_untouched oldPodSpec newPodSpec h p :
  p ∉ descriptorsOf newPodSpec →
  lastBinding p (allWrites oldPodSpec newPodSpec h) = None.
Proof.
  intros Hp. apply lastBinding_None. intros v Hin.
  apply Hp, elem_of_descriptorsOf.
  unfold allWrites in Hin. apply elem_of_app in Hin as [Hin|Hin];
    apply elem_of_pendingWrites in Hin as (c & Hc & Hsc);
    exists c; (split; [|done]); apply elem_of_app; auto.
Qed.

Lemma preserved_refl s : preserved s s.
Proof. by repeat split. Qed.

Lemma insert_fresh_subseteq {T} (m : gmap loc T) (x : T) :
  m ⊆ <[fresh (dom m) := x]> m.
Proof.
  apply insert_subseteq, not_elem_of_dom, is_fresh.
Qed.

Lemma copyContainers_subseteq cs h : h ⊆ (copyContainers cs h).2.
Proof.
  revert h. induction cs as [|c cs IH]; intros h; [done|].
  cbn [copyContainers]. unfold copySecurityContext.
  destruct (Container.SecurityContext c) as [p|].
  - match goal with |- context [copyContainers cs ?h'] =>
      specialize (IH h'); destruct (copyContainers cs h') as [rest h2]
    end.
    cbn [snd] in *. etrans; [apply insert_fresh_subseteq|exact IH].
  - specialize (IH h). destruct (copyContainers cs h) as [rest h2].
    exact IH.
Qed.

Lemma PodSpec_DeepCopy_subseteq ps h : h ⊆ (PodSpec_DeepCopy ps h).2.
Proof.
  unfold PodSpec_DeepCopy.
  pose proof (copyContainers_subseteq (PodSpec.InitContainers ps) h) as H1.
  destruct (copyContainers (PodSpec.InitContainers ps) h) as [ics h1].
  pose proof (copyContainers_subseteq (PodSpec.Containers ps) h1) as H2.
  destruct (copyContainers (PodSpec.Containers ps) h1) as [cs h2].
  cbn [snd] in *. by etrans.
Qed.

Lemma deepCopy_returns k obj s :
  ∃ old, (deepCopy k obj s).1 = Ok old ∧ preserved s (deepCopy k obj s).2.
Proof.
  destruct obj as [l|].
  2:{ exists None. destruct k; split; try reflexivity; apply preserved_refl. }
  destruct k; cbn [deepCopy];
    unfold Deployment_DeepCopy, StatefulSet_DeepCopy, DaemonSet_DeepCopy,
           CronJob_DeepCopy, DeepCopy, mbind, M_bind, deref, onContexts, alloc;
    cbn [get put deploymentTable statefulSetTable daemonSetTable cronJobTable];
    match goal with |- context [PodSpec_DeepCopy ?ps ?h] =>
      pose proof (PodSpec_DeepCopy_subseteq ps h) as Hsub;
      destruct (PodSpec_DeepCopy ps h) as [ps' h']
    end;
    eexists; (split; [reflexivity|]); cbn [snd] in *;
    repeat split; cbn; try done; apply insert_fresh_subseteq.
Qed.

Lemma DefaultDeployment_blocks (reconciler : Reconciler) d :
  DefaultDeployment reconciler d
  = (old ← Deployment_DeepCopy d;
     '(d, err) ← reconciler d;
     match err with
     | Some err => mret (None, Some err)
     | None => strategyBlock d;; templateBlock old d
     end).
Proof. reflexivity. Qed.

Lemma bind_Ok {A B} (m : M A) (f : A → M B) s a s' :
  m s = (Ok a, s') → (m ≫= f) s = f a s'.
Proof. intros Hm. unfold mbind, M_bind. by rewrite Hm. Qed.

Lemma bind_Panic {A B} (m : M A) (f : A → M B) s s' :
  m s = (Panic, s') → (m ≫= f) s = (Panic, s').
Proof. intros Hm. unfold mbind, M_bind. by rewrite Hm. Qed.

Lemma strategyBlock_spec d s :
  ∃ s',
    strategyBlock (Some d) s = (Ok tt, s')
    ∧ contexts s' = contexts s
    ∧ let before := Deployment.Strategy (deployments s !!! d) in
      let after := Deployment.Strategy (deployments s' !!! d) in
      (DeploymentStrategy.Type_ before = "" →
         DeploymentStrategy.Type_ after
         = appsv1.RollingUpdateDeploymentStrategyType
         ∧ (DeploymentStrategy.RollingUpdate before = None →
            DeploymentStrategy.RollingUpdate after
            = Some defaultRollingUpdate)
         ∧ (∀ r, DeploymentStrategy.RollingUpdate before = Some r →
                 DeploymentStrategy.RollingUpdate after = Some r))
      ∧ (DeploymentStrategy.Type_ before ≠ "" → after = before).
Proof.
  unfold strategyBlock.
  rewrite (bind_Ok _ _ s (Deployment.Strategy (deployments s !!! d)) s)
    by reflexivity.
  destruct (deployments s !!! d) as [n [rep tpl [ty ru]]] eqn:HD.
  cbn [Deployment.Strategy Deployment.Spec DeploymentSpec.Strategy
       DeploymentStrategy.Type_ DeploymentStrategy.RollingUpdate].
  destruct (String.eqb ty "") eqn:Hty.
  - apply String.eqb_eq in Hty. subst ty.
    erewrite bind_Ok by reflexivity.
    erewrite bind_Ok by reflexivity.
    cbn [get put deploymentTable set_deployments deployments].
    rewrite lookup_total_insert_eq, HD.
    destruct ru as [r|]; cbn.
    + eexists. split; [reflexivity|]. split; [reflexivity|].
      cbn. rewrite lookup_total_insert_eq. cbn.
      split; [|done]. intros _. split; [done|]. split; [done|].
      by intros ? [= ->].
    + eexists. split; [reflexivity|]. split; [reflexivity|].
      cbn. rewrite !lookup_total_insert_eq. cbn.
      split; [|done]. intros _. split; [done|]. split; [done|].
      by intros ? [=].
  - apply String.eqb_neq in Hty.
    eexists. split; [reflexivity|]. split; [reflexivity|].
    rewrite HD. cbn. split; done.
Qed.

Lemma templateBlock_spec old d s :
  Deployment.Strategy (deployments (templateBlock old (Some d) s).2 !!! d)
  = Deployment.Strategy (deployments s !!! d)
  ∧ (old ≠ None → (templateBlock old (Some d) s).1 = Ok (Some d, None)).
Proof.
  unfold templateBlock. destruct old as [o|].
  2:{ erewrite bind_Panic by reflexivity. done. }
  erewrite bind_Ok by reflexivity.
  erewrite bind_Ok by reflexivity.
  pose proof (DefaultPodSpec_spec
                (Deployment.PodSpec (deployments s !!! o))
                (Deployment.PodSpec (deployments s !!! d))
                (contexts s)) as Herr.
  unfold onContexts, mbind, M_bind.
  destruct (DefaultPodSpec _ _ (contexts s)) as [[ps err] h].
  cbn [fst] in Herr. injection Herr as _ ->.
  cbn. by rewrite lookup_total_insert_eq.
Qed.

(** ** C1: isolation-mode carry-forward *)

(** C1 (as amended).  Let list [k] (init or main containers) of the old pod
    spec hold at position [j] a container with a security descriptor, and let
    no later container of that list with the same name have a descriptor.
    Let list [k] of the new pod spec hold at position [i] a container of the
    same name with a descriptor [p] that no container visited later holds.
    Then after [DefaultPodSpec] the container at position [i] still has that
    name and descriptor, and its isolation mode is the one the old container
    had when [DefaultPodSpec] was called. *)
Theorem carry_forward_isolation_mode
    k h oldPodSpec newPodSpec j co po i c p :
  containersOf k oldPodSpec !! j = Some co →
  Container.SecurityContext co = Some po →
  Forall (fun c' => Container.Name c' = Container.Name co →
                    Container.SecurityContext c' = None)
         (drop (S j) (containersOf k oldPodSpec)) →
  containersOf k newPodSpec !! i = Some c →
  Container.Name c = Container.Name co →
  Container.SecurityContext c = Some p →
  notHeldLater k newPodSpec i p →
  ∃ c',
    containersOf k (DefaultPodSpec oldPodSpec newPodSpec h).1.1 !! i = Some c'
    ∧ Container.Name c' = Container.Name co
    ∧ Container.SecurityContext c' = Some p
    ∧ SecurityContext.ProcMount
        ((DefaultPodSpec oldPodSpec newPodSpec h).2 !!! p)
      = SecurityContext.ProcMount (h !!! po).
Proof.
  intros Hj Hpo Hlast Hi Hname Hp Hlater.
  exists (defaultContainerFields c). split; [|split; [|split]].
  - by apply DefaultPodSpec_lookup.
  - by rewrite defaultContainerFields_Name.
  - by rewrite defaultContainerFields_SecurityContext.
  - rewrite (DefaultPodSpec_ProcMount k _ _ _ i c p) by done.
    rewrite index_procMountTypes, Hname.
    by rewrite (tableEntries_last _ _ j co po).
Qed.

Lemma carry_forward_isolation_mode_witness :
  ∃ c',
    containersOf Main (DefaultPodSpec old_app new_app heap_app).1.1 !! 0
    = Some c'
    ∧ Container.Name c' = "app"
    ∧ Container.SecurityContext c' = Some 2%positive
    ∧ SecurityContext.ProcMount
        ((DefaultPodSpec old_app new_app heap_app).2 !!! 2%positive)
      = SecurityContext.ProcMount (heap_app !!! 1%positive).
Proof.
  apply (carry_forward_isolation_mode Main heap_app old_app new_app
           0 (container "app" (Some 1%positive)) 1%positive
           0 (container "app" (Some 2%positive)) 2%positive);
    try reflexivity.
  - constructor.
  - split; constructor.
Defined.

(** C1 as stated fails in two ways.  With two old containers of one name the
    table keeps the mode of the last one, so the mode of the first is not
    carried forward; and a descriptor shared with a container visited later
    ends with the mode looked up for that container. *)
Lemma carry_forward_counterexample :
  (old_dup.(PodSpec.Containers) !! 0 = Some (container "app" (Some 1%positive))
   ∧ SecurityContext.ProcMount (heap_dup !!! 1%positive) = Some "Unmasked"
   ∧ new_dup.(PodSpec.Containers) !! 0
     = Some (container "app" (Some 3%positive))
   ∧ SecurityContext.ProcMount
       ((DefaultPodSpec old_dup new_dup heap_dup).2 !!! 3%positive)
     ≠ Some "Unmasked")
  ∧
  (old_app.(PodSpec.Containers) !! 0 = Some (container "app" (Some 1%positive))
   ∧ SecurityContext.ProcMount (heap_app !!! 1%positive) = Some "Unmasked"
   ∧ new_shared.(PodSpec.Containers) !! 0
     = Some (container "app" (Some 2%positive))
   ∧ SecurityContext.ProcMount
       ((DefaultPodSpec old_app new_shared heap_app).2 !!! 2%positive)
     ≠ Some "Unmasked").
Proof. vm_compute. repeat split; discriminate. Qed.

(** ** C2: idempotence *)

(** C2 (as amended).  If no security descriptor held by a container of the
    baseline [T0] is also held by a container of [T], then applying
    [DefaultPodSpec] with baseline [T0] to its own result returns the same
    pod spec, the same nil error and the same heap. *)
Theorem DefaultPodSpec_idempotent T0 T h :
  descriptorsOf T0 ## descriptorsOf T →
  DefaultPodSpec T0 (DefaultPodSpec T0 T h).1.1 (DefaultPodSpec T0 T h).2
  = DefaultPodSpec T0 T h.
Proof.
  intros Hdisj.
  set (R := (DefaultPodSpec T0 T h).1.1).
  set (h1 := (DefaultPodSpec T0 T h).2).
  assert (HR : R = PodSpec.mk
       (defaultVolume <$> PodSpec.Volumes T)
       (defaultContainerFields <$> PodSpec.InitContainers T)
       (defaultContainerFields <$> PodSpec.Containers T)
       (PodSpec.ServiceAccountName T)
       (defaultPodSecurityContext (PodSpec.SecurityContext T))).
  { unfold R. by rewrite DefaultPodSpec_spec. }
  assert (Hframe : ∀ k,
    Forall (fun c => ∀ p, Container.SecurityContext c = Some p →
                          h1 !!! p = h !!! p) (containersOf k T0)).
  { intros k. apply Forall_forall. intros c Hc p Hp.
    rewrite !lookup_total_alt. unfold h1.
    rewrite DefaultPodSpec_heap_lookup, allWrites_untouched; [done|].
    intros Hin. apply (Hdisj p); [|done].
    apply elem_of_descriptorsOf. exists c. split; [|done].
    apply elem_of_app. destruct k; auto. }
  assert (HW : allWrites T0 R h1 = allWrites T0 T h).
  { unfold allWrites.
    pose proof (procMountTypes_agree h h1 _ (Hframe Init)) as HI.
    pose proof (procMountTypes_agree h h1 _ (Hframe Main)) as HM.
    cbn [containersOf] in HI, HM. rewrite HI, HM.
    rewrite HR. cbn [PodSpec.InitContainers PodSpec.Containers].
    by rewrite !pendingWrites_fmap_fields. }
  rewrite (surjective_pairing (DefaultPodSpec T0 R h1)).
  rewrite (surjective_pairing (DefaultPodSpec T0 T h)).
  f_equal.
  - rewrite !DefaultPodSpec_spec. fold R. rewrite HR.
    cbn [PodSpec.Volumes PodSpec.InitContainers PodSpec.Containers
         PodSpec.ServiceAccountName PodSpec.SecurityContext].
    rewrite defaultPodSecurityContext_idem.
    rewrite <- !list_fmap_compose.
    f_equal. f_equal; apply list_fmap_ext; intros _ x _; cbn.
    + apply defaultVolume_idem.
    + apply defaultContainerFields_idem.
    + apply defaultContainerFields_idem.
  - fold h1. apply map_eq. intros p.
    rewrite DefaultPodSpec_heap_lookup, HW.
    unfold h1 at 2. rewrite DefaultPodSpec_heap_lookup.
    destruct (lastBinding p (allWrites T0 T h)) as [v|] eqn:E.
    + rewrite lookup_total_alt. unfold h1.
      rewrite DefaultPodSpec_heap_lookup, E. reflexivity.
    + unfold h1. by rewrite DefaultPodSpec_heap_lookup, E.
Qed.

Lemma DefaultPodSpec_idempotent_witness :
  DefaultPodSpec old_app (DefaultPodSpec old_app new_app heap_app).1.1
    (DefaultPodSpec old_app new_app heap_app).2
  = DefaultPodSpec old_app new_app heap_app.
Proof.
  apply (DefaultPodSpec_idempotent old_app new_app heap_app).
  intros p Hold Hnew. vm_compute in Hold, Hnew.
  apply list_elem_of_singleton in Hold, Hnew. congruence.
Defined.

(** C2 as stated fails when the baseline shares a descriptor with the new
    pod spec: the first call overwrites the mode the baseline's "app" is
    read from, so the second call builds another table and clears the mode
    that the first call gave to the new "app". *)
Lemma DefaultPodSpec_idempotent_counterexample :
  DefaultPodSpec old_app
    (DefaultPodSpec old_app new_app_sidecar heap_app).1.1
    (DefaultPodSpec old_app new_app_sidecar heap_app).2
  ≠ DefaultPodSpec old_app new_app_sidecar heap_app.
Proof.
  intros Heq.
  apply (f_equal (fun r => SecurityContext.ProcMount (r.2 !!! 2%positive)))
    in Heq.
  vm_compute in Heq. discriminate.
Qed.

(** ** C3: overwrite to unset *)

(** C3 (as amended).  If no container of list [k] of the old pod spec that is
    named like the new container has a security descriptor (in particular if
    the old list has no container of that name), then a container of list
    [k] of the new pod spec with a descriptor [p] that no container visited
    later holds ends with isolation mode unset, whatever mode it arrived
    with. *)
Theorem isolation_mode_overwritten_to_unset
    k h oldPodSpec newPodSpec i c p :
  containersOf k newPodSpec !! i = Some c →
  Container.SecurityContext c = Some p →
  Forall (fun co => Container.Name co = Container.Name c →
                    Container.SecurityContext co = None)
         (containersOf k oldPodSpec) →
  notHeldLater k newPodSpec i p →
  ∃ c',
    containersOf k (DefaultPodSpec oldPodSpec newPodSpec h).1.1 !! i = Some c'
    ∧ Container.Name c' = Container.Name c
    ∧ Container.SecurityContext c' = Some p
    ∧ SecurityContext.ProcMount
        ((DefaultPodSpec oldPodSpec newPodSpec h).2 !!! p) = None.
Proof.
  intros Hi Hp Hold Hlater.
  exists (defaultContainerFields c). split; [|split; [|split]].
  - by apply DefaultPodSpec_lookup.
  - by rewrite defaultContainerFields_Name.
  - by rewrite defaultContainerFields_SecurityContext.
  - rewrite (DefaultPodSpec_ProcMount k _ _ _ i c p) by done.
    by rewrite index_procMountTypes, tableEntries_none.
Qed.

Lemma isolation_mode_overwritten_to_unset_witness :
  SecurityContext.ProcMount (heap_sidecar !!! 2%positive) = Some "Unmasked"
  ∧ ∃ c',
      containersOf Main
        (DefaultPodSpec old_sidecar new_app heap_sidecar).1.1 !! 0 = Some c'
      ∧ Container.Name c' = "app"
      ∧ Container.SecurityContext c' = Some 2%positive
      ∧ SecurityContext.ProcMount
          ((DefaultPodSpec old_sidecar new_app heap_sidecar).2 !!! 2%positive)
        = None.
Proof.
  split; [reflexivity|].
  apply (isolation_mode_overwritten_to_unset Main heap_sidecar old_sidecar
           new_app 0 (container "app" (Some 2%positive)) 2%positive);
    try reflexivity.
  - repeat constructor. discriminate.
  - split; constructor.
Defined.

(** C3 as stated fails when the descriptor is shared: "app" has no old
    counterpart, but its descriptor is also held by "sidecar", visited
    later, whose old mode "Default" is carried forward into it. *)
Lemma isolation_mode_overwritten_counterexample :
  Forall (fun co => Container.Name co ≠ "app")
         (PodSpec.Containers old_sidecar)
  ∧ new_shared.(PodSpec.Containers) !! 0
    = Some (container "app" (Some 2%positive))
  ∧ SecurityContext.ProcMount
      ((DefaultPodSpec old_sidecar new_shared heap_sidecar).2 !!! 2%positive)
    = Some "Default".
Proof.
  split; [|split]; [|reflexivity|reflexivity].
  repeat constructor. discriminate.
Qed.

(** ** C4: seccomp profile *)

(** C4.  The pod spec returned by [DefaultPodSpec] has a pod-level security
    context with a seccomp profile.  If the new pod spec had no security
    context, the result is the empty one with profile type RuntimeDefault;
    if it had one without a profile, only the profile is added, of type
    RuntimeDefault; if it had one with a profile, it is returned unchanged. *)
Theorem seccomp_profile_postcondition oldPodSpec newPodSpec h :
  ∃ sc prof,
    PodSpec.SecurityContext (DefaultPodSpec oldPodSpec newPodSpec h).1.1
    = Some sc
    ∧ PodSecurityContext.SeccompProfile sc = Some prof
    ∧ match PodSpec.SecurityContext newPodSpec with
      | None =>
          sc = PodSecurityContext.mk None None None (Some prof)
          ∧ prof = SeccompProfile.mk
                     corev1.SeccompProfileTypeRuntimeDefault None
      | Some sc0 =>
          match PodSecurityContext.SeccompProfile sc0 with
          | None =>
              sc = PodSecurityContext.set_SeccompProfile (Some prof) sc0
              ∧ prof = SeccompProfile.mk
                         corev1.SeccompProfileTypeRuntimeDefault None
          | Some prof0 => sc = sc0 ∧ prof = prof0
          end
      end.
Proof.
  rewrite DefaultPodSpec_spec. cbn [fst PodSpec.SecurityContext].
  unfold defaultPodSecurityContext.
  destruct (PodSpec.SecurityContext newPodSpec) as [sc0|].
  - destruct (PodSecurityContext.SeccompProfile sc0) as [prof0|] eqn:E.
    + exists sc0, prof0. by rewrite E.
    + by eexists _, _.
  - by eexists _, _.
Qed.

(** ** C5: error short-circuit *)

(** C5.  For each of the four wrappers: if the inner reconciler, called after
    the deep copy was taken, returns a non-nil error [e], then the wrapper
    returns [(nil, e)] with the same [e], and the store it leaves is exactly
    the store the inner reconciler left: no defaulting was applied.  The deep
    copy taken before the call does not panic and changes no object that
    existed when the wrapper was called. *)
Theorem error_short_circuit k (reconciler : Reconciler) obj s ptr e s1 :
  reconciler obj (deepCopy k obj s).2 = (Ok (ptr, Some e), s1) →
  wrapper k reconciler obj s = (Ok (None, Some e), s1)
  ∧ preserved s (deepCopy k obj s).2.
Proof.
  intros Hrec.
  destruct (deepCopy_returns k obj s) as (old & Hold & Hpres).
  split; [|exact Hpres].
  destruct (deepCopy k obj s) as [r s0] eqn:Hdc. cbn [fst snd] in *.
  subst r.
  destruct k; cbn [wrapper deepCopy] in *;
    unfold DefaultDeployment, DefaultStatefulSet, DefaultDaemonSet,
           DefaultCronJob;
    unfold mbind at 1; unfold M_bind at 1; rewrite Hdc;
    unfold mbind at 1; unfold M_bind at 1; rewrite Hrec; reflexivity.
Qed.

Lemma error_short_circuit_witness :
  ∃ s1,
    DefaultDeployment failingReconciler (Some 1%positive) store_app
    = (Ok (None, Some "quota exceeded"), s1)
    ∧ Deployment.Strategy (deployments s1 !!! 1%positive)
      = DeploymentStrategy.mk "" None
    ∧ DeploymentSpec.Replicas (Deployment.Spec (deployments s1 !!! 1%positive))
      = Some 5%Z.
Proof.
  eexists. split.
  - refine (proj1 (error_short_circuit KDeployment failingReconciler
                     (Some 1%positive) store_app (Some 1%positive)
                     "quota exceeded" _ _)).
    reflexivity.
  - split; reflexivity.
Defined.

(** ** C6: Deployment strategy defaulting *)

(** C6.  Let the inner reconciler succeed with a non-nil Deployment [d].
    In the store the wrapper leaves, the strategy of [d] is the one the inner
    reconciler left, except that an unset type has become RollingUpdate and,
    in that case only, absent rolling-update parameters have become
    MaxSurge = 1 and MaxUnavailable = 0, both as integers.  A strategy whose
    type is set is unchanged, also when it has no rolling-update
    parameters.  When the wrapper was called on a non-nil object it returns
    [(d, nil)]. *)
Theorem deployment_strategy_defaulting (reconciler : Reconciler) obj s d s1 :
  reconciler obj (Deployment_DeepCopy obj s).2 = (Ok (Some d, None), s1) →
  let before := Deployment.Strategy (deployments s1 !!! d) in
  let after :=
    Deployment.Strategy
      (deployments (DefaultDeployment reconciler obj s).2 !!! d) in
  (DeploymentStrategy.Type_ before = "" →
     DeploymentStrategy.Type_ after
     = appsv1.RollingUpdateDeploymentStrategyType
     ∧ (DeploymentStrategy.RollingUpdate before = None →
        DeploymentStrategy.RollingUpdate after
        = Some {| RollingUpdateDeployment.MaxUnavailable :=
                    Some (IntOrString.mk IntOrString.Int 0%Z "");
                  RollingUpdateDeployment.MaxSurge :=
                    Some (IntOrString.mk IntOrString.Int 1%Z "") |})
     ∧ (∀ r, DeploymentStrategy.RollingUpdate before = Some r →
             DeploymentStrategy.RollingUpdate after = Some r))
  ∧ (DeploymentStrategy.Type_ before ≠ "" → after = before)
  ∧ (obj ≠ None →
     (DefaultDeployment reconciler obj s).1 = Ok (Some d, None)).
Proof.
  intros Hrec before after. subst before after.
  destruct (deepCopy_returns KDeployment obj s) as (old & Hold & _).
  cbn [deepCopy] in Hold.
  destruct (Deployment_DeepCopy obj s) as [r s0] eqn:Hdc.
  cbn [fst snd] in *. subst r.
  assert (Hnil : obj ≠ None → old ≠ None).
  { destruct obj as [l|]; [|done]. intros _.
    revert Hdc.
    unfold Deployment_DeepCopy, DeepCopy, mbind, M_bind, deref, onContexts,
           alloc.
    destruct (PodSpec_DeepCopy _ _). by intros [= <- _]. }
  rewrite DefaultDeployment_blocks.
  rewrite (bind_Ok _ _ _ _ _ Hdc), (bind_Ok _ _ _ _ _ Hrec).
  destruct (strategyBlock_spec d s1) as (s2 & Hs2 & _ & Hstrat).
  rewrite (bind_Ok _ _ _ _ _ Hs2).
  destruct (templateBlock_spec old d s2) as [Hkeep Hret].
  rewrite Hkeep. cbn zeta in Hstrat.
  destruct Hstrat as [Hunset Hset].
  split; [exact Hunset|]. split; [exact Hset|]. auto.
Qed.

Lemma deployment_strategy_defaulting_witness :
  (DefaultDeployment idReconciler (Some 1%positive) store_app).1
  = Ok (Some 1%positive, None)
  ∧ Deployment.Strategy
      (deployments
         (DefaultDeployment idReconciler (Some 1%positive) store_app).2
       !!! 1%positive)
    = DeploymentStrategy.mk "RollingUpdate"
        (Some {| RollingUpdateDeployment.MaxUnavailable :=
                   Some (IntOrString.mk IntOrString.Int 0%Z "");
                 RollingUpdateDeployment.MaxSurge :=
                   Some (IntOrString.mk IntOrString.Int 1%Z "") |})
  ∧ Deployment.Strategy
      (deployments
         (DefaultDeployment idReconciler (Some 1%positive) store_recreate).2
       !!! 1%positive)
    = DeploymentStrategy.mk "Recreate" None.
Proof.
  destruct (deployment_strategy_defaulting idReconciler (Some 1%positive)
              store_app 1%positive _ eq_refl)
    as ((Hty & Hru & _) & _ & Hret); [reflexivity|].
  destruct (deployment_strategy_defaulting idReconciler (Some 1%positive)
              store_recreate 1%positive _ eq_refl)
    as (_ & Hkeep & _).
  split; [by apply Hret|]. split.
  - specialize (Hru eq_refl).
    destruct (Deployment.Strategy _) as [ty ru].
    cbn in Hty, Hru. by rewrite Hty, Hru.
  - by rewrite Hkeep.
Defined.

(** ** C7: volume defaulting *)

(** C7.  [DefaultPodSpec] keeps the number and order of the volumes, and the
    volume at each position keeps its name and its other sources; a secret
    source gets the default secret mode exactly when its mode is unset, a
    config-map source gets the default config-map mode exactly when its mode
    is unset, a mode that is set is kept, and a volume with neither source,
    or whose sources all have a mode, is unchanged. *)
Theorem volume_defaulting_is_fill_only oldPodSpec newPodSpec h i vol :
  PodSpec.Volumes newPodSpec !! i = Some vol →
  length (PodSpec.Volumes (DefaultPodSpec oldPodSpec newPodSpec h).1.1)
  = length (PodSpec.Volumes newPodSpec)
  ∧ ∃ vol',
      PodSpec.Volumes (DefaultPodSpec oldPodSpec newPodSpec h).1.1 !! i
      = Some vol'
      ∧ Volume.Name vol' = Volume.Name vol
      ∧ VolumeSource.HostPath (Volume.VolumeSource vol')
        = VolumeSource.HostPath (Volume.VolumeSource vol)
      ∧ match VolumeSource.Secret (Volume.VolumeSource vol) with
        | None => VolumeSource.Secret (Volume.VolumeSource vol') = None
        | Some s =>
            VolumeSource.Secret (Volume.VolumeSource vol')
            = Some (match SecretVolumeSource.DefaultMode s with
                    | None =>
                        SecretVolumeSource.set_DefaultMode
                          (Some corev1.SecretVolumeSourceDefaultMode) s
                    | Some _ => s
                    end)
        end
      ∧ match VolumeSource.ConfigMap (Volume.VolumeSource vol) with
        | None => VolumeSource.ConfigMap (Volume.VolumeSource vol') = None
        | Some s =>
            VolumeSource.ConfigMap (Volume.VolumeSource vol')
            = Some (match ConfigMapVolumeSource.DefaultMode s with
                    | None =>
                        ConfigMapVolumeSource.set_DefaultMode
                          (Some corev1.ConfigMapVolumeSourceDefaultMode) s
                    | Some _ => s
                    end)
        end
      ∧ ((∀ s, VolumeSource.Secret (Volume.VolumeSource vol) = Some s →
               SecretVolumeSource.DefaultMode s ≠ None) →
         (∀ s, VolumeSource.ConfigMap (Volume.VolumeSource vol) = Some s →
               ConfigMapVolumeSource.DefaultMode s ≠ None) →
         vol' = vol).
Proof.
  intros Hi. rewrite DefaultPodSpec_spec. cbn [fst PodSpec.Volumes].
  split; [by rewrite length_fmap|].
  exists (defaultVolume vol). rewrite list_lookup_fmap, Hi.
  split; [reflexivity|].
  destruct vol as [n [hp [[sn [m|] o]|] [[cn [m'|] o']|]]];
    cbn; repeat split; try reflexivity; intros Hs Hc;
    try (by destruct (Hs _ eq_refl)); by destruct (Hc _ eq_refl).
Qed.

Lemma volume_defaulting_is_fill_only_witness :
  ∃ vol',
    PodSpec.Volumes (DefaultPodSpec old_app new_volumes heap_app).1.1 !! 0
    = Some vol'
    ∧ vol' = Volume.mk "tls"
               (VolumeSource.mk None
                  (Some (SecretVolumeSource.mk "tls-secret" (Some 256%Z) None))
                  None).
Proof.
  destruct (volume_defaulting_is_fill_only old_app new_volumes heap_app 0 _
              eq_refl) as (_ & vol' & Hl & _ & _ & _ & _ & Hsame).
  exists vol'. split; [exact Hl|].
  apply Hsame; intros s [= <-]; discriminate.
Defined.

(** ** C8: no security descriptor is allocated for a container *)

(** C8.  A container of the new pod spec without a security descriptor is
    still without one after [DefaultPodSpec], in either list and whatever
    the old pod spec holds. *)
Theorem nil_security_context_stays_nil k h oldPodSpec newPodSpec i c :
  containersOf k newPodSpec !! i = Some c →
  Container.SecurityContext c = None →
  ∃ c',
    containersOf k (DefaultPodSpec oldPodSpec newPodSpec h).1.1 !! i = Some c'
    ∧ Container.Name c' = Container.Name c
    ∧ Container.SecurityContext c' = None.
Proof.
  intros Hi Hsc. exists (defaultContainerFields c). split; [|split].
  - by apply DefaultPodSpec_lookup.
  - by rewrite defaultContainerFields_Name.
  - by rewrite defaultContainerFields_SecurityContext.
Qed.

Lemma nil_security_context_stays_nil_witness :
  ∃ c',
    containersOf Main (DefaultPodSpec old_app new_bare heap_app).1.1 !! 0
    = Some c'
    ∧ Container.Name c' = "app"
    ∧ Container.SecurityContext c' = None.
Proof.
  apply (nil_security_context_stays_nil Main heap_app old_app new_bare 0
           (container "app" None)); reflexivity.
Defined.

(** ** C9: no error *)

(** C9.  [DefaultPodSpec] is a total function and the error it returns is
    always nil. *)
Theorem DefaultPodSpec_never_fails oldPodSpec newPodSpec h :
  (DefaultPodSpec oldPodSpec newPodSpec h).1.2 = None.
Proof. by rewrite DefaultPodSpec_spec. Qed.

(** ** C10: the two lists have separate tables *)

(** C10 (as amended).  For a container of list [k] of the new pod spec whose
    descriptor [p] no container visited later holds, the isolation mode
    after [DefaultPodSpec] does not depend on the other list of the old pod
    spec: two old pod specs with the same list [k] give the same mode; and if
    no container of that name in list [k] of the old pod spec has a
    descriptor, the mode is unset, whatever the other list holds. *)
Theorem carry_forward_is_per_list k h oldPodSpec newPodSpec i c p :
  containersOf k newPodSpec !! i = Some c →
  Container.SecurityContext c = Some p →
  notHeldLater k newPodSpec i p →
  (∀ oldPodSpec',
     containersOf k oldPodSpec' = containersOf k oldPodSpec →
     SecurityContext.ProcMount
       ((DefaultPodSpec oldPodSpec' newPodSpec h).2 !!! p)
     = SecurityContext.ProcMount
         ((DefaultPodSpec oldPodSpec newPodSpec h).2 !!! p))
  ∧ (Forall (fun co => Container.Name co = Container.Name c →
                       Container.SecurityContext co = None)
            (containersOf k oldPodSpec) →
     SecurityContext.ProcMount
       ((DefaultPodSpec oldPodSpec newPodSpec h).2 !!! p) = None).
Proof.
  intros Hi Hp Hlater. split.
  - intros old' Heq.
    rewrite !(DefaultPodSpec_ProcMount k _ _ _ i c p) by done.
    by rewrite Heq.
  - intros Hold.
    rewrite (DefaultPodSpec_ProcMount k _ _ _ i c p) by done.
    by rewrite index_procMountTypes, tableEntries_none.
Qed.

Lemma carry_forward_is_per_list_witness :
  SecurityContext.ProcMount
    ((DefaultPodSpec old_app new_both heap_app).2 !!! 2%positive) = None.
Proof.
  refine (proj2 (carry_forward_is_per_list Init heap_app old_app new_both 0
                   (container "app" (Some 2%positive)) 2%positive
                   _ _ _) _); try reflexivity.
  - split; repeat constructor; discriminate.
  - constructor.
Defined.

(** C10 as stated fails when an init container and a main container hold
    the same descriptor: "app" exists only in the main list of the old pod
    spec, yet the init container "app" ends with the old main container's
    mode. *)
Lemma carry_forward_per_list_counterexample :
  PodSpec.InitContainers old_app = []
  ∧ old_app.(PodSpec.Containers) !! 0
    = Some (container "app" (Some 1%positive))
  ∧ SecurityContext.ProcMount (heap_app !!! 1%positive) = Some "Unmasked"
  ∧ new_both_shared.(PodSpec.InitContainers) !! 0
    = Some (container "app" (Some 2%positive))
  ∧ SecurityContext.ProcMount
      ((DefaultPodSpec old_app new_both_shared heap_app).2 !!! 2%positive)
    = Some "Unmasked".
Proof. repeat split. Qed.

(** ** The wrapper end to end *)

(** The deep copy taken by the wrapper holds the old mode, so a reconciler
    that rebuilds the pod spec from scratch still gets it back. *)
Example DefaultDeployment_carries_forward :
  (DefaultDeployment replacingReconciler (Some 1%positive) store_live).1
  = Ok (Some 1%positive, None)
  ∧ SecurityContext.ProcMount
      (contexts
         (DefaultDeployment replacingReconciler (Some 1%positive)
            store_live).2 !!! 9%positive)
    = Some "Unmasked".
Proof. split; reflexivity. Qed.

(** * Further properties of the code *)

Lemma lastBinding_None_Some_elem {K} `{EqDecision K} {V} (k : K)
    (l : list (K * V)) v :
  lastBinding k l = Some v → (k, v) ∈ l.
Proof.
  induction l as [|[k' v'] l IH]; cbn; [discriminate|].
  destruct (lastBinding k l) as [w|].
  - intros [= ->]. right. by apply IH.
  - destruct (decide (k' = k)) as [->|]; [|discriminate].
    intros [= ->]. by left.
Qed.

(** ** DefaultContainer *)

(** X1.  [DefaultContainer] fills the image pull policy, the termination
    message path and the termination message policy when they are empty and
    keeps them when they are set, each independently of the others; none of
    the three is empty afterwards. *)
Theorem DefaultContainer_fills_unset_fields c pm h :
  let c' := (DefaultContainer c pm h).1 in
  (Container.ImagePullPolicy c = "" →
     Container.ImagePullPolicy c' = corev1.PullIfNotPresent)
  ∧ (Container.ImagePullPolicy c ≠ "" →
     Container.ImagePullPolicy c' = Container.ImagePullPolicy c)
  ∧ (Container.TerminationMessagePath c = "" →
     Container.TerminationMessagePath c'
     = corev1.TerminationMessagePathDefault)
  ∧ (Container.TerminationMessagePath c ≠ "" →
     Container.TerminationMessagePath c'
     = Container.TerminationMessagePath c)
  ∧ (Container.TerminationMessagePolicy c = "" →
     Container.TerminationMessagePolicy c'
     = corev1.TerminationMessageReadFile)
  ∧ (Container.TerminationMessagePolicy c ≠ "" →
     Container.TerminationMessagePolicy c'
     = Container.TerminationMessagePolicy c)
  ∧ Container.ImagePullPolicy c' ≠ ""
  ∧ Container.TerminationMessagePath c' ≠ ""
  ∧ Container.TerminationMessagePolicy c' ≠ "".
Proof.
  destruct c as [n i e [|a1 pp] [|a2 tp] [|a3 tpol] sc]; cbn;
    repeat split; first [done | discriminate | intros; congruence].
Qed.

Lemma DefaultContainer_fills_unset_fields_witness :
  Container.ImagePullPolicy
    (DefaultContainer (container "app" None) None ∅).1 = "IfNotPresent"
  ∧ Container.TerminationMessagePath
      (DefaultContainer
         (Container.mk "app" "img" [] "Always" "/tmp/log" "" None) None ∅).1
    = "/tmp/log".
Proof.
  split.
  - apply (DefaultContainer_fills_unset_fields (container "app" None) None ∅).
    reflexivity.
  - refine (proj1 (proj2 (proj2 (proj2
              (DefaultContainer_fills_unset_fields
                 (Container.mk "app" "img" [] "Always" "/tmp/log" "" None)
                 None ∅)))) _).
    discriminate.
Defined.

(** X2.  [DefaultContainer] keeps the number and order of the environment
    entries and the name and value of each.  An entry without a value
    source, or whose source has no field reference, is unchanged; a field
    reference with an empty API version gets "v1" and keeps its field path;
    a field reference with an API version is unchanged; the other sources of
    the entry are kept. *)
Theorem DefaultContainer_env_defaulting c pm h i e :
  Container.Env c !! i = Some e →
  length (Container.Env (DefaultContainer c pm h).1)
  = length (Container.Env c)
  ∧ ∃ e',
      Container.Env (DefaultContainer c pm h).1 !! i = Some e'
      ∧ EnvVar.Name e' = EnvVar.Name e
      ∧ EnvVar.Value e' = EnvVar.Value e
      ∧ match EnvVar.ValueFrom e with
        | None => e' = e
        | Some src =>
            ∃ src',
              EnvVar.ValueFrom e' = Some src'
              ∧ EnvVarSource.SecretKeyRef src'
                = EnvVarSource.SecretKeyRef src
              ∧ match EnvVarSource.FieldRef src with
                | None => e' = e
                | Some ref =>
                    ∃ ref',
                      EnvVarSource.FieldRef src' = Some ref'
                      ∧ ObjectFieldSelector.FieldPath ref'
                        = ObjectFieldSelector.FieldPath ref
                      ∧ (ObjectFieldSelector.APIVersion ref = "" →
                         ObjectFieldSelector.APIVersion ref' = "v1")
                      ∧ (ObjectFieldSelector.APIVersion ref ≠ "" → e' = e)
                end
        end.
Proof.
  intros Hi.
  assert (HE : Container.Env (DefaultContainer c pm h).1
               = defaultEnvVar <$> Container.Env c).
  { destruct c as [n im env [|a1 pp] [|a2 tp] [|a3 tpol] sc]; reflexivity. }
  rewrite HE. split; [by rewrite length_fmap|].
  exists (defaultEnvVar e). rewrite list_lookup_fmap, Hi.
  split; [reflexivity|].
  destruct e as [n v [[[[a f]|] k]|]]; cbn.
  - destruct a as [|a0 a]; cbn.
    + repeat split. eexists. repeat split. eexists. by repeat split.
    + repeat split. eexists. repeat split. eexists. by repeat split.
  - repeat split. eexists. by repeat split.
  - by repeat split.
Qed.

Lemma DefaultContainer_env_defaulting_witness :
  ∃ e',
    Container.Env (DefaultContainer container_env None ∅).1 !! 1 = Some e'
    ∧ e' = EnvVar.mk "POD_IP" ""
             (Some (EnvVarSource.mk
                      (Some (ObjectFieldSelector.mk "v1" "status.podIP"))
                      None)).
Proof.
  destruct (DefaultContainer_env_defaulting container_env None ∅ 1 _ eq_refl)
    as (_ & e' & Hl & _).
  exists e'. split; [exact Hl|].
  vm_compute in Hl. by injection Hl as <-.
Defined.

(** X3.  [DefaultContainer] never changes the name, the image or the
    security-context pointer of the container.  In the heap it changes at
    most the isolation mode of the container's own security context: every
    other security context is untouched, the other fields of the
    container's own one are kept, and a container without a security context
    leaves the heap as it is, whatever mode was passed. *)
Theorem DefaultContainer_frame c pm h :
  Container.Name (DefaultContainer c pm h).1 = Container.Name c
  ∧ Container.Image (DefaultContainer c pm h).1 = Container.Image c
  ∧ Container.SecurityContext (DefaultContainer c pm h).1
    = Container.SecurityContext c
  ∧ (Container.SecurityContext c = None → (DefaultContainer c pm h).2 = h)
  ∧ (∀ q, Container.SecurityContext c ≠ Some q →
          (DefaultContainer c pm h).2 !! q = h !! q)
  ∧ (∀ p, Container.SecurityContext c = Some p →
          (DefaultContainer c pm h).2 !!! p
          = SecurityContext.set_ProcMount pm (h !!! p)).
Proof.
  unfold DefaultContainer. cbn [fst snd].
  rewrite defaultContainerFields_Name, defaultContainerFields_SecurityContext.
  split; [reflexivity|]. split.
  { destruct c as [n im env [|a1 pp] [|a2 tp] [|a3 tpol] sc]; reflexivity. }
  split; [reflexivity|].
  destruct (Container.SecurityContext c) as [p|]; cbn [writeProcMount].
  - split; [discriminate|]. split.
    + intros q Hq. rewrite lookup_insert_ne; [done|]. congruence.
    + intros ? [= <-]. by rewrite lookup_total_insert_eq.
  - split; [done|]. split; [done|]. discriminate.
Qed.

Lemma DefaultContainer_frame_witness :
  (DefaultContainer (container "app" None) (Some "Unmasked") heap_app).2
  = heap_app.
Proof.
  refine (proj1 (proj2 (proj2 (proj2
            (DefaultContainer_frame (container "app" None) (Some "Unmasked")
               heap_app)))) _).
  reflexivity.
Defined.

(** X4.  [DefaultContainer] is idempotent: called again on its own result
    with the same mode, it changes neither the container nor the heap. *)
Theorem DefaultContainer_idempotent c pm h :
  DefaultContainer (DefaultContainer c pm h).1 pm (DefaultContainer c pm h).2
  = DefaultContainer c pm h.
Proof.
  unfold DefaultContainer. cbn [fst snd].
  rewrite defaultContainerFields_idem, defaultContainerFields_SecurityContext.
  f_equal.
  destruct (Container.SecurityContext c) as [p|]; cbn [writeProcMount];
    [|reflexivity].
  rewrite lookup_total_insert_eq. cbn. by rewrite insert_insert_eq.
Qed.

(** ** DefaultPodSpec *)

(** X5.  [DefaultPodSpec] adds, removes and reorders nothing: each container
    list keeps its length and, position by position, the names, images and
    security-context pointers of its containers; the volumes keep their
    number and names; the service account name is kept. *)
Theorem DefaultPodSpec_keeps_structure k oldPodSpec newPodSpec h :
  let r := (DefaultPodSpec oldPodSpec newPodSpec h).1.1 in
  length (containersOf k r) = length (containersOf k newPodSpec)
  ∧ Container.Name <$> containersOf k r
    = Container.Name <$> containersOf k newPodSpec
  ∧ Container.Image <$> containersOf k r
    = Container.Image <$> containersOf k newPodSpec
  ∧ Container.SecurityContext <$> containersOf k r
    = Container.SecurityContext <$> containersOf k newPodSpec
  ∧ Volume.Name <$> PodSpec.Volumes r
    = Volume.Name <$> PodSpec.Volumes newPodSpec
  ∧ PodSpec.ServiceAccountName r = PodSpec.ServiceAccountName newPodSpec.
Proof.
  cbn zeta. rewrite DefaultPodSpec_containers.
  rewrite DefaultPodSpec_spec. cbn [fst PodSpec.Volumes
    PodSpec.ServiceAccountName].
  rewrite length_fmap, <- !list_fmap_compose.
  split; [reflexivity|].
  split; [apply list_fmap_ext; intros _ x _; cbn;
          apply defaultContainerFields_Name|].
  split; [apply list_fmap_ext; intros _ x _; cbn;
          by destruct x as [n im env [|a1 pp] [|a2 tp] [|a3 tpol] sc]|].
  split; [apply list_fmap_ext; intros _ x _; cbn;
          apply defaultContainerFields_SecurityContext|].
  split; [|reflexivity].
  apply list_fmap_ext; intros _ x _; cbn.
  by destruct x as [n [hp [[sn [m|] o]|] [[cn [m'|] o']|]]].
Qed.

(** X6.  In the heap, [DefaultPodSpec] changes nothing but isolation modes,
    and only behind pointers held by containers of the new pod spec: a
    security context that no new container holds, such as one held only by
    the old pod spec, is untouched; every security context keeps all its
    fields other than the isolation mode; none is removed. *)
Theorem DefaultPodSpec_heap_frame oldPodSpec newPodSpec h :
  (∀ q, q ∉ descriptorsOf newPodSpec →
        (DefaultPodSpec oldPodSpec newPodSpec h).2 !! q = h !! q)
  ∧ (∀ q, ∃ v,
        (DefaultPodSpec oldPodSpec newPodSpec h).2 !!! q
        = SecurityContext.set_ProcMount v (h !!! q))
  ∧ (∀ q, is_Some (h !! q) →
          is_Some ((DefaultPodSpec oldPodSpec newPodSpec h).2 !! q)).
Proof.
  split; [|split].
  - intros q Hq.
    by rewrite DefaultPodSpec_heap_lookup, allWrites_untouched.
  - intros q. rewrite !lookup_total_alt, DefaultPodSpec_heap_lookup.
    destruct (lastBinding q (allWrites oldPodSpec newPodSpec h)) as [v|].
    + exists v. cbn. by rewrite lookup_total_alt.
    + exists (SecurityContext.ProcMount (default inhabitant (h !! q))).
      by destruct (default inhabitant (h !! q)).
  - intros q Hq. rewrite DefaultPodSpec_heap_lookup.
    by destruct (lastBinding q (allWrites oldPodSpec newPodSpec h)).
Qed.

Lemma DefaultPodSpec_heap_frame_witness :
  (DefaultPodSpec old_app new_app heap_app).2 !! 1%positive
  = Some (withProcMount (Some "Unmasked")).
Proof.
  rewrite (proj1 (DefaultPodSpec_heap_frame old_app new_app heap_app)
             1%positive).
  - reflexivity.
  - vm_compute. intros Hin. apply list_elem_of_singleton in Hin. discriminate.
Defined.

Lemma envVarDefaulted_defaultEnvVar e : envVarDefaulted (defaultEnvVar e) = true.
Proof.
  destruct e as [n v [[[[a f]|] k]|]]; cbn; try reflexivity.
  destruct (String.eqb a "") eqn:E; cbn; [reflexivity|]. by rewrite E.
Qed.

Lemma envVarDefaulted_fixed e : envVarDefaulted e = true → defaultEnvVar e = e.
Proof.
  destruct e as [n v [[[[a f]|] k]|]]; cbn; try reflexivity.
  by destruct (String.eqb a "").
Qed.

Lemma forallb_fmap_true {A B} (f : A → B) (P : B → bool) (l : list A) :
  (∀ x, P (f x) = true) → forallb P (f <$> l) = true.
Proof.
  intros HP. induction l as [|x l IH]; [reflexivity|].
  cbn. by rewrite HP, IH.
Qed.

Lemma forallb_fmap_fixed {A} (f : A → A) (P : A → bool) (l : list A) :
  (∀ x, P x = true → f x = x) → forallb P l = true → f <$> l = l.
Proof.
  intros HP. induction l as [|x l IH]; [reflexivity|].
  cbn. intros [Hx Hl]%andb_true_iff. by rewrite (HP x Hx), (IH Hl).
Qed.

Lemma containerDefaulted_defaultContainerFields c :
  containerDefaulted (defaultContainerFields c) = true.
Proof.
  destruct c as [n im env [|a1 pp] [|a2 tp] [|a3 tpol] sc];
    unfold containerDefaulted, defaultContainerFields; cbn -[forallb fmap];
    apply forallb_fmap_true, envVarDefaulted_defaultEnvVar.
Qed.

Lemma containerDefaulted_fixed c :
  containerDefaulted c = true → defaultContainerFields c = c.
Proof.
  destruct c as [n im env [|a1 pp] [|a2 tp] [|a3 tpol] sc];
    unfold containerDefaulted, defaultContainerFields; cbn -[forallb fmap];
    try discriminate.
  intros Henv. unfold Container.set_Env. cbn -[fmap].
  by rewrite (forallb_fmap_fixed _ _ _ envVarDefaulted_fixed Henv).
Qed.

Lemma volumeDefaulted_defaultVolume vol :
  volumeDefaulted (defaultVolume vol) = true.
Proof.
  destruct vol as [n [hp [[sn [m|] o]|] [[cn [m'|] o']|]]]; reflexivity.
Qed.

Lemma volumeDefaulted_fixed vol :
  volumeDefaulted vol = true → defaultVolume vol = vol.
Proof.
  destruct vol as [n [hp [[sn [m|] o]|] [[cn [m'|] o']|]]];
    cbn; try reflexivity; discriminate.
Qed.

Lemma podSpecDefaulted_DefaultPodSpec oldPodSpec newPodSpec h :
  podSpecDefaulted (DefaultPodSpec oldPodSpec newPodSpec h).1.1 = true.
Proof.
  rewrite DefaultPodSpec_spec. unfold podSpecDefaulted.
  cbn [fst PodSpec.InitContainers PodSpec.Containers PodSpec.Volumes
       PodSpec.SecurityContext].
  rewrite !forallb_fmap_true
    by (first [apply containerDefaulted_defaultContainerFields
              |apply volumeDefaulted_defaultVolume]).
  by destruct (PodSpec.SecurityContext newPodSpec) as [[u r f [prof|]]|].
Qed.

(** X7.  The pod spec returned by [DefaultPodSpec] is in normal form: every
    container of both lists has an image pull policy, a termination message
    path and a termination message policy, every field reference of its
    environment has an API version, every secret and config-map volume source
    has a mode, and the pod has a security context with a seccomp profile. *)
Theorem DefaultPodSpec_normal_form oldPodSpec newPodSpec h :
  podSpecDefaulted (DefaultPodSpec oldPodSpec newPodSpec h).1.1 = true.
Proof. apply podSpecDefaulted_DefaultPodSpec. Qed.

Lemma DefaultPodSpec_fixed oldPodSpec newPodSpec h :
  podSpecDefaulted newPodSpec = true →
  (DefaultPodSpec oldPodSpec newPodSpec h).1 = (newPodSpec, None).
Proof.
  unfold podSpecDefaulted.
  intros [[[Hi Hc]%andb_true_iff Hv]%andb_true_iff Hs]%andb_true_iff.
  rewrite DefaultPodSpec_spec.
  rewrite (forallb_fmap_fixed _ _ _ containerDefaulted_fixed Hi).
  rewrite (forallb_fmap_fixed _ _ _ containerDefaulted_fixed Hc).
  rewrite (forallb_fmap_fixed _ _ _ volumeDefaulted_fixed Hv).
  destruct newPodSpec as [vs ics cs sa [[u r f [prof|]]|]]; cbn in *;
    done.
Qed.

(** X8.  A pod spec in normal form is a fixed point: whatever the old pod
    spec and the heap, [DefaultPodSpec] returns it unchanged, with a nil
    error.  (Only isolation modes in the heap can change.) *)
Theorem DefaultPodSpec_fixed_point oldPodSpec newPodSpec h :
  podSpecDefaulted newPodSpec = true →
  (DefaultPodSpec oldPodSpec newPodSpec h).1 = (newPodSpec, None).
Proof. apply DefaultPodSpec_fixed. Qed.

Lemma DefaultPodSpec_fixed_point_witness :
  (DefaultPodSpec old_dup (DefaultPodSpec old_app new_volumes heap_app).1.1
     heap_dup).1
  = ((DefaultPodSpec old_app new_volumes heap_app).1.1, None).
Proof.
  apply (DefaultPodSpec_fixed_point old_dup
           (DefaultPodSpec old_app new_volumes heap_app).1.1 heap_dup).
  reflexivity.
Defined.

(** X9.  The old pod spec and the heap influence nothing but isolation
    modes: the pod spec and the error that [DefaultPodSpec] returns are the
    same for every old pod spec and every heap. *)
Theorem DefaultPodSpec_result_ignores_old
    oldPodSpec oldPodSpec' newPodSpec h h' :
  (DefaultPodSpec oldPodSpec newPodSpec h).1
  = (DefaultPodSpec oldPodSpec' newPodSpec h').1.
Proof. by rewrite !DefaultPodSpec_spec. Qed.

(** X10.  [DefaultPodSpec] allocates no security context: if every security
    context held by a container of the new pod spec is allocated, the heap
    holds the same locations afterwards as before. *)
Theorem DefaultPodSpec_allocates_nothing oldPodSpec newPodSpec h :
  (∀ q, q ∈ descriptorsOf newPodSpec → is_Some (h !! q)) →
  dom (DefaultPodSpec oldPodSpec newPodSpec h).2 = dom h.
Proof.
  intros Halloc. apply set_eq. intros q. rewrite !elem_of_dom.
  rewrite DefaultPodSpec_heap_lookup.
  destruct (lastBinding q (allWrites oldPodSpec newPodSpec h)) as [v|] eqn:E;
    [|done].
  split; [|by eauto]. intros _. apply Halloc.
  destruct (decide (q ∈ descriptorsOf newPodSpec)) as [Hin|Hnot]; [done|].
  by rewrite (allWrites_untouched _ _ _ _ Hnot) in E.
Qed.

Lemma DefaultPodSpec_allocates_nothing_witness :
  dom (DefaultPodSpec old_app new_shared heap_app).2 = dom heap_app.
Proof.
  apply (DefaultPodSpec_allocates_nothing old_app new_shared heap_app).
  intros q Hq. vm_compute in Hq.
  apply elem_of_cons in Hq as [->|Hq]; [by eexists|].
  apply list_elem_of_singleton in Hq as ->. by eexists.
Defined.

Lemma lastBinding_NoDup {K} `{EqDecision K} {V} (k : K) (l : list (K * V)) v :
  NoDup l.*1 → lastBinding k l = Some v ↔ (k, v) ∈ l.
Proof.
  induction l as [|[k' v'] l IH]; cbn [lastBinding fmap list_fmap fst].
  - intros _. split; [discriminate|]. intros Hin. inversion Hin.
  - intros [Hk' Hnd]%NoDup_cons. specialize (IH Hnd).
    rewrite elem_of_cons.
    destruct (lastBinding k l) as [w|] eqn:E.
    + split.
      * intros [= ->]. right. by apply IH.
      * intros [[= -> ->]|Hin].
        -- destruct Hk'. apply list_elem_of_fmap. exists (k', w).
           split; [reflexivity|]. by apply lastBinding_None_Some_elem.
        -- apply IH in Hin. congruence.
    + destruct (decide (k' = k)) as [->|Hne].
      * split; [intros [= ->]; by left|].
        intros [[= ->]|Hin]; [reflexivity|].
        apply IH in Hin. discriminate.
      * split; [discriminate|].
        intros [[= -> ->]|Hin]; [done|]. apply IH in Hin. discriminate.
Qed.

Lemma lastBinding_Permutation {K} `{EqDecision K} {V} (k : K)
    (l l' : list (K * V)) :
  NoDup l.*1 → l ≡ₚ l' → lastBinding k l' = lastBinding k l.
Proof.
  intros Hnd Hperm.
  assert (Hnd' : NoDup l'.*1) by (by rewrite <- Hperm).
  destruct (lastBinding k l) as [v|] eqn:E.
  - apply lastBinding_NoDup; [done|]. rewrite <- Hperm.
    by apply lastBinding_NoDup.
  - apply lastBinding_None. intros v. rewrite <- Hperm.
    revert v. by apply lastBinding_None.
Qed.

Lemma NoDup_tableEntries h cs :
  NoDup (Container.Name <$> cs) → NoDup (tableEntries h cs).*1.
Proof.
  induction cs as [|c cs IH]; [constructor|].
  cbn [fmap list_fmap]. intros [Hc Hnd]%NoDup_cons.
  unfold tableEntries. cbn [omap list_omap]. fold (tableEntries h cs).
  destruct (Container.SecurityContext c) as [p|]; [|by apply IH].
  cbn [fmap list_fmap fst]. apply NoDup_cons. split; [|by apply IH].
  intros Hin. apply Hc.
  apply list_elem_of_fmap in Hin as ([n v] & Hn & Hin). cbn in Hn. subst n.
  apply elem_of_tableEntries in Hin as (c' & Hc' & Hname & _).
  apply list_elem_of_fmap. by exists c'.
Qed.

Lemma procMountTypes_Permutation h cs cs' :
  NoDup (Container.Name <$> cs) → cs' ≡ₚ cs →
  procMountTypes h cs' = procMountTypes h cs.
Proof.
  intros Hnd Hperm. apply map_eq. intros n.
  rewrite !procMountTypes_lookup.
  apply lastBinding_Permutation; [by apply NoDup_tableEntries|].
  unfold tableEntries. by rewrite Hperm.
Qed.

(** X11.  Old containers are matched by name, not by position: if the names
    within each list of the old pod spec are distinct, reordering the old
    containers changes nothing in what [DefaultPodSpec] returns nor in the
    heap it leaves. *)
Theorem DefaultPodSpec_old_order_irrelevant oldPodSpec oldPodSpec' newPodSpec h :
  NoDup (Container.Name <$> PodSpec.InitContainers oldPodSpec) →
  NoDup (Container.Name <$> PodSpec.Containers oldPodSpec) →
  PodSpec.InitContainers oldPodSpec' ≡ₚ PodSpec.InitContainers oldPodSpec →
  PodSpec.Containers oldPodSpec' ≡ₚ PodSpec.Containers oldPodSpec →
  DefaultPodSpec oldPodSpec' newPodSpec h
  = DefaultPodSpec oldPodSpec newPodSpec h.
Proof.
  intros Hni Hnc Hpi Hpc. unfold DefaultPodSpec.
  by rewrite (procMountTypes_Permutation h _ _ Hni Hpi),
             (procMountTypes_Permutation h _ _ Hnc Hpc).
Qed.

Lemma DefaultPodSpec_old_order_irrelevant_witness :
  DefaultPodSpec old_two_swapped new_shared heap_sidecar
  = DefaultPodSpec old_two new_shared heap_sidecar.
Proof.
  apply (DefaultPodSpec_old_order_irrelevant old_two old_two_swapped
           new_shared heap_sidecar).
  - constructor.
  - cbn. apply NoDup_cons. split; [|apply NoDup_singleton].
    rewrite list_elem_of_singleton. discriminate.
  - reflexivity.
  - apply Permutation_swap.
Defined.

(** ** The wrappers *)

Lemma DefaultStatefulSet_parts (reconciler : Reconciler) ss :
  DefaultStatefulSet reconciler ss
  = (old ← StatefulSet_DeepCopy ss;
     '(ss, err) ← reconciler ss;
     match err with
     | Some err => mret (None, Some err)
     | None =>
         _ ← deref statefulSetTable ss;
         normalizeTemplate statefulSetTable StatefulSet.PodSpec
           StatefulSet.set_PodSpec old ss
     end).
Proof. reflexivity. Qed.

Lemma DefaultDaemonSet_parts (reconciler : Reconciler) ds :
  DefaultDaemonSet reconciler ds
  = (old ← DaemonSet_DeepCopy ds;
     '(ds, err) ← reconciler ds;
     match err with
     | Some err => mret (None, Some err)
     | None =>
         _ ← deref daemonSetTable ds;
         normalizeTemplate daemonSetTable DaemonSet.PodSpec
           DaemonSet.set_PodSpec old ds
     end).
Proof. reflexivity. Qed.

Lemma DefaultCronJob_parts (reconciler : Reconciler) cj :
  DefaultCronJob reconciler cj
  = (old ← CronJob_DeepCopy cj;
     '(cj, err) ← reconciler cj;
     match err with
     | Some err => mret (None, Some err)
     | None =>
         _ ← deref cronJobTable cj;
         normalizeTemplate cronJobTable CronJob.PodSpec
           CronJob.set_PodSpec old cj
     end).
Proof. reflexivity. Qed.

Lemma DefaultDeployment_parts (reconciler : Reconciler) d :
  DefaultDeployment reconciler d
  = (old ← Deployment_DeepCopy d;
     '(d, err) ← reconciler d;
     match err with
     | Some err => mret (None, Some err)
     | None =>
         strategyBlock d;;
         normalizeTemplate deploymentTable Deployment.PodSpec
           Deployment.set_PodSpec old d
     end).
Proof. reflexivity. Qed.

(** What [normalizeTemplate] does on non-nil pointers. *)
Lemma normalizeTemplate_spec {T} `{Inhabited T} (tb : Table T)
    (getPodSpec : T → PodSpec.t) (setPodSpec : PodSpec.t → T → T) o d s :
  (∀ h s', get tb (set_contexts h s') = get tb s') →
  let r := DefaultPodSpec (getPodSpec (get tb s !!! o))
             (getPodSpec (get tb s !!! d)) (contexts s) in
  normalizeTemplate tb getPodSpec setPodSpec (Some o) (Some d) s
  = (Ok (Some d, None),
     put tb (<[d := setPodSpec r.1.1 (get tb s !!! d)]> (get tb s))
       (set_contexts r.2 s)).
Proof.
  intros Hget r. unfold normalizeTemplate.
  erewrite bind_Ok by reflexivity.
  erewrite bind_Ok by reflexivity.
  pose proof (DefaultPodSpec_spec (getPodSpec (get tb s !!! o))
                (getPodSpec (get tb s !!! d)) (contexts s)) as Hspec.
  subst r. unfold onContexts, mbind, M_bind, update.
  destruct (DefaultPodSpec _ _ (contexts s)) as [[ps err] h'].
  cbn [fst snd] in *. injection Hspec as _ ->.
  by rewrite Hget.
Qed.

Lemma normalizeTemplate_nil_old {T} `{Inhabited T} (tb : Table T)
    (getPodSpec : T → PodSpec.t) (setPodSpec : PodSpec.t → T → T) d s :
  normalizeTemplate tb getPodSpec setPodSpec None d s = (Panic, s).
Proof. reflexivity. Qed.

Lemma strategyBlock_frame d s :
  ∃ s' st,
    strategyBlock (Some d) s = (Ok tt, s')
    ∧ contexts s' = contexts s
    ∧ statefulSets s' = statefulSets s
    ∧ daemonSets s' = daemonSets s
    ∧ cronJobs s' = cronJobs s
    ∧ (∀ l, l ≠ d → deployments s' !! l = deployments s !! l)
    ∧ deployments s' !!! d = Deployment.set_Strategy st (deployments s !!! d)
    ∧ DeploymentStrategy.Type_ st ≠ ""
    ∧ (DeploymentStrategy.Type_ (Deployment.Strategy (deployments s !!! d))
       ≠ "" → st = Deployment.Strategy (deployments s !!! d)).
Proof.
  unfold strategyBlock.
  rewrite (bind_Ok _ _ s (Deployment.Strategy (deployments s !!! d)) s)
    by reflexivity.
  destruct (deployments s !!! d) as [n [rep tpl [ty ru]]] eqn:HD.
  cbn [Deployment.Strategy Deployment.Spec DeploymentSpec.Strategy
       DeploymentStrategy.Type_ DeploymentStrategy.RollingUpdate].
  destruct (String.eqb ty "") eqn:Hty.
  - apply String.eqb_eq in Hty. subst ty.
    erewrite bind_Ok by reflexivity.
    erewrite bind_Ok by reflexivity.
    cbn [get put deploymentTable set_deployments deployments].
    rewrite lookup_total_insert_eq, HD.
    destruct ru as [r|]; cbn.
    + eexists _, (DeploymentStrategy.mk _ _).
      split; [reflexivity|]. repeat (split; [reflexivity|]). cbn. split.
      { intros l Hl. by rewrite lookup_insert_ne. }
      rewrite lookup_total_insert_eq. cbn. split; [reflexivity|].
      split; [discriminate|done].
    + eexists _, (DeploymentStrategy.mk _ _).
      split; [reflexivity|]. repeat (split; [reflexivity|]). cbn. split.
      { intros l Hl. by rewrite !lookup_insert_ne. }
      rewrite !lookup_total_insert_eq. cbn. split; [reflexivity|].
      split; [discriminate|done].
  - apply String.eqb_neq in Hty.
    exists s, (DeploymentStrategy.mk ty ru).
    repeat split; done.
Qed.

Lemma lookup_total_proper {T} `{Inhabited T} (m m' : gmap loc T) l :
  m' !! l = m !! l → m' !!! l = m !!! l.
Proof. intros Hl. by rewrite !lookup_total_alt, Hl. Qed.

Lemma wrapper_success k (reconciler : Reconciler) obj s o s0 d s1 :
  deepCopy k obj s = (Ok (Some o), s0) →
  reconciler obj s0 = (Ok (Some d, None), s1) →
  ∃ s2,
    wrapper k reconciler obj s = (Ok (Some d, None), s2)
    ∧ successStore k s1 s2 o d.
Proof.
  intros Hdc Hrec. destruct k; cbn [wrapper deepCopy] in *.
  - rewrite DefaultDeployment_parts.
    rewrite (bind_Ok _ _ _ _ _ Hdc), (bind_Ok _ _ _ _ _ Hrec).
    destruct (strategyBlock_frame d s1)
      as (s' & st & Hs' & Hctx & Hss & Hds & Hcj & Hother & Hd & Hty & Hst).
    rewrite (bind_Ok _ _ _ _ _ Hs').
    rewrite normalizeTemplate_spec by reflexivity.
    cbn [get put deploymentTable].
    assert (Hps : ∀ l, Deployment.PodSpec (deployments s' !!! l)
                       = Deployment.PodSpec (deployments s1 !!! l)).
    { intros l. destruct (decide (l = d)) as [->|Hne].
      - by rewrite Hd.
      - by rewrite (lookup_total_proper _ _ l (Hother l Hne)). }
    eexists. split; [reflexivity|].
    unfold successStore. cbn [podSpecAt]. rewrite !Hps, Hctx, Hd.
    cbn [contexts deployments statefulSets daemonSets cronJobs
         set_deployments set_contexts].
    split; [reflexivity|]. split.
    { intros l [Hk|Hl]; [done|]. rewrite lookup_insert_ne by done.
      by apply Hother. }
    rewrite Hss, Hds, Hcj. repeat (split; [done|]).
    exists st. split; [done|]. split; [done|]. by rewrite lookup_insert_eq.
  - rewrite DefaultStatefulSet_parts.
    rewrite (bind_Ok _ _ _ _ _ Hdc), (bind_Ok _ _ _ _ _ Hrec).
    erewrite bind_Ok by reflexivity.
    rewrite normalizeTemplate_spec by reflexivity.
    eexists. split; [reflexivity|].
    unfold successStore. cbn. repeat (split; [done|]). split.
    { intros l [Hk|Hl]; [done|]. by rewrite lookup_insert_ne. }
    repeat (split; [done|]). by rewrite lookup_insert_eq.
  - rewrite DefaultDaemonSet_parts.
    rewrite (bind_Ok _ _ _ _ _ Hdc), (bind_Ok _ _ _ _ _ Hrec).
    erewrite bind_Ok by reflexivity.
    rewrite normalizeTemplate_spec by reflexivity.
    eexists. split; [reflexivity|].
    unfold successStore. cbn. repeat (split; [done|]). split.
    { intros l [Hk|Hl]; [done|]. by rewrite lookup_insert_ne. }
    repeat (split; [done|]). by rewrite lookup_insert_eq.
  - rewrite DefaultCronJob_parts.
    rewrite (bind_Ok _ _ _ _ _ Hdc), (bind_Ok _ _ _ _ _ Hrec).
    erewrite bind_Ok by reflexivity.
    rewrite normalizeTemplate_spec by reflexivity.
    eexists. split; [reflexivity|].
    unfold successStore. cbn. repeat (split; [done|]). split.
    { intros l [Hk|Hl]; [done|]. by rewrite lookup_insert_ne. }
    by rewrite lookup_insert_eq.
Qed.

Lemma deepCopy_non_nil k l s :
  ∃ o s0, deepCopy k (Some l) s = (Ok (Some o), s0).
Proof.
  destruct k; cbn [deepCopy];
    unfold Deployment_DeepCopy, StatefulSet_DeepCopy, DaemonSet_DeepCopy,
           CronJob_DeepCopy, DeepCopy, mbind, M_bind, deref, onContexts, alloc;
    match goal with |- context [PodSpec_DeepCopy ?ps ?h] =>
      destruct (PodSpec_DeepCopy ps h) as [ps' h']
    end; by eexists _, _.
Qed.

Lemma wrapper_nil_object k (reconciler : Reconciler) obj s s1 :
  reconciler obj (deepCopy k obj s).2 = (Ok (None, None), s1) →
  wrapper k reconciler obj s = (Panic, s1).
Proof.
  intros Hrec.
  destruct (deepCopy_returns k obj s) as (old & Hold & _).
  destruct (deepCopy k obj s) as [r s0] eqn:Hdc. cbn [fst snd] in *. subst r.
  destruct k; cbn [wrapper deepCopy] in *.
  - rewrite DefaultDeployment_parts.
    by rewrite (bind_Ok _ _ _ _ _ Hdc), (bind_Ok _ _ _ _ _ Hrec).
  - rewrite DefaultStatefulSet_parts.
    by rewrite (bind_Ok _ _ _ _ _ Hdc), (bind_Ok _ _ _ _ _ Hrec).
  - rewrite DefaultDaemonSet_parts.
    by rewrite (bind_Ok _ _ _ _ _ Hdc), (bind_Ok _ _ _ _ _ Hrec).
  - rewrite DefaultCronJob_parts.
    by rewrite (bind_Ok _ _ _ _ _ Hdc), (bind_Ok _ _ _ _ _ Hrec).
Qed.

Lemma wrapper_inner_panic k (reconciler : Reconciler) obj s s1 :
  reconciler obj (deepCopy k obj s).2 = (Panic, s1) →
  wrapper k reconciler obj s = (Panic, s1).
Proof.
  intros Hrec.
  destruct (deepCopy_returns k obj s) as (old & Hold & _).
  destruct (deepCopy k obj s) as [r s0] eqn:Hdc. cbn [fst snd] in *. subst r.
  destruct k; cbn [wrapper deepCopy] in *.
  - rewrite DefaultDeployment_parts.
    by rewrite (bind_Ok _ _ _ _ _ Hdc), (bind_Panic _ _ _ _ Hrec).
  - rewrite DefaultStatefulSet_parts.
    by rewrite (bind_Ok _ _ _ _ _ Hdc), (bind_Panic _ _ _ _ Hrec).
  - rewrite DefaultDaemonSet_parts.
    by rewrite (bind_Ok _ _ _ _ _ Hdc), (bind_Panic _ _ _ _ Hrec).
  - rewrite DefaultCronJob_parts.
    by rewrite (bind_Ok _ _ _ _ _ Hdc), (bind_Panic _ _ _ _ Hrec).
Qed.

Lemma wrapper_inner_error k (reconciler : Reconciler) obj s ptr e s1 :
  reconciler obj (deepCopy k obj s).2 = (Ok (ptr, Some e), s1) →
  wrapper k reconciler obj s = (Ok (None, Some e), s1).
Proof.
  intros Hrec.
  destruct (deepCopy_returns k obj s) as (old & Hold & _).
  destruct (deepCopy k obj s) as [r s0] eqn:Hdc. cbn [fst snd] in *. subst r.
  destruct k; cbn [wrapper deepCopy] in *.
  - rewrite DefaultDeployment_parts.
    by rewrite (bind_Ok _ _ _ _ _ Hdc), (bind_Ok _ _ _ _ _ Hrec).
  - rewrite DefaultStatefulSet_parts.
    by rewrite (bind_Ok _ _ _ _ _ Hdc), (bind_Ok _ _ _ _ _ Hrec).
  - rewrite DefaultDaemonSet_parts.
    by rewrite (bind_Ok _ _ _ _ _ Hdc), (bind_Ok _ _ _ _ _ Hrec).
  - rewrite DefaultCronJob_parts.
    by rewrite (bind_Ok _ _ _ _ _ Hdc), (bind_Ok _ _ _ _ _ Hrec).
Qed.

Lemma wrapper_nil_input_panics k (reconciler : Reconciler) s d s1 :
  reconciler None (deepCopy k None s).2 = (Ok (Some d, None), s1) →
  (wrapper k reconciler None s).1 = Panic.
Proof.
  intros Hrec.
  assert (Hdc : deepCopy k None s = (Ok None, s)) by (by destruct k).
  rewrite Hdc in Hrec. cbn [snd] in Hrec.
  destruct k; cbn [wrapper deepCopy] in *.
  - rewrite DefaultDeployment_parts.
    rewrite (bind_Ok _ _ _ _ _ Hdc), (bind_Ok _ _ _ _ _ Hrec).
    destruct (strategyBlock_frame d s1) as (s' & st & Hs' & _).
    by rewrite (bind_Ok _ _ _ _ _ Hs').
  - rewrite DefaultStatefulSet_parts.
    rewrite (bind_Ok _ _ _ _ _ Hdc), (bind_Ok _ _ _ _ _ Hrec).
    by erewrite bind_Ok by reflexivity.
  - rewrite DefaultDaemonSet_parts.
    rewrite (bind_Ok _ _ _ _ _ Hdc), (bind_Ok _ _ _ _ _ Hrec).
    by erewrite bind_Ok by reflexivity.
  - rewrite DefaultCronJob_parts.
    rewrite (bind_Ok _ _ _ _ _ Hdc), (bind_Ok _ _ _ _ _ Hrec).
    by erewrite bind_Ok by reflexivity.
Qed.

(** X12.  On the success path a wrapper is [DefaultPodSpec] applied to the
    object the inner reconciler returned: if the wrapper was called on a
    non-nil object, whose deep copy is [o], and the inner reconciler returned
    [(d, nil)] with [d] non-nil, then the wrapper returns [(d, nil)], the pod
    spec of [d] is the one [DefaultPodSpec] returns for the copy's pod spec
    and the pod spec the reconciler left in [d], and the security contexts
    are as [DefaultPodSpec] leaves them.  This holds for all four kinds, at
    their different nesting depths. *)
Theorem wrapper_applies_DefaultPodSpec
    k (reconciler : Reconciler) obj s o s0 d s1 :
  deepCopy k obj s = (Ok (Some o), s0) →
  reconciler obj s0 = (Ok (Some d, None), s1) →
  (wrapper k reconciler obj s).1 = Ok (Some d, None)
  ∧ podSpecAt k (wrapper k reconciler obj s).2 d
    = (DefaultPodSpec (podSpecAt k s1 o) (podSpecAt k s1 d) (contexts s1)).1.1
  ∧ contexts (wrapper k reconciler obj s).2
    = (DefaultPodSpec (podSpecAt k s1 o) (podSpecAt k s1 d) (contexts s1)).2.
Proof.
  intros Hdc Hrec.
  destruct (wrapper_success k reconciler obj s o s0 d s1 Hdc Hrec)
    as (s2 & -> & Hctx & _ & _ & _ & _ & Hobj).
  cbn [fst snd]. split; [reflexivity|]. split; [|exact Hctx].
  destruct k; cbn [podSpecAt] in *.
  - destruct Hobj as (st & _ & _ & Hobj).
    by rewrite (lookup_total_correct _ _ _ Hobj).
  - by rewrite (lookup_total_correct _ _ _ Hobj).
  - by rewrite (lookup_total_correct _ _ _ Hobj).
  - by rewrite (lookup_total_correct _ _ _ Hobj).
Qed.

(** X13.  What a wrapper can return.  It never returns an object together
    with an error, and never a nil object with a nil error.  An error it
    returns is the one the inner reconciler returned; an object it returns
    is the one the inner reconciler returned with a nil error.  Otherwise it
    panics. *)
Theorem wrapper_result_shape k (reconciler : Reconciler) obj s :
  match (wrapper k reconciler obj s).1 with
  | Ok (Some d, None) =>
      (reconciler obj (deepCopy k obj s).2).1 = Ok (Some d, None)
  | Ok (None, Some e) =>
      ∃ ptr, (reconciler obj (deepCopy k obj s).2).1 = Ok (ptr, Some e)
  | Ok (None, None) => False
  | Ok (Some _, Some _) => False
  | Panic => True
  end.
Proof.
  destruct (reconciler obj (deepCopy k obj s).2) as [[[ptr [e|]]|] s1] eqn:Hrec.
  - rewrite (wrapper_inner_error k reconciler obj s ptr e s1 Hrec).
    cbn. by exists ptr.
  - destruct ptr as [d|].
    + destruct obj as [l|].
      * destruct (deepCopy_non_nil k l s) as (o & s0 & Hdc).
        rewrite Hdc in Hrec. cbn [snd] in Hrec.
        destruct (wrapper_success k reconciler (Some l) s o s0 d s1 Hdc Hrec)
          as (s2 & -> & _).
        reflexivity.
      * by rewrite (wrapper_nil_input_panics k reconciler s d s1 Hrec).
    + by rewrite (wrapper_nil_object k reconciler obj s s1 Hrec).
  - by rewrite (wrapper_inner_panic k reconciler obj s s1 Hrec).
Qed.

(** X14.  If the inner reconciler returns a nil object with a nil error, the
    wrapper panics on the nil dereference; the store is the one the inner
    reconciler left. *)
Theorem wrapper_panics_on_nil_object k (reconciler : Reconciler) obj s s1 :
  reconciler obj (deepCopy k obj s).2 = (Ok (None, None), s1) →
  wrapper k reconciler obj s = (Panic, s1).
Proof. apply wrapper_nil_object. Qed.


(** X16.  Every object a wrapper returns is defaulted: its pod spec is in
    normal form, and the strategy type of a Deployment is not empty. *)
Theorem wrapper_result_is_defaulted k (reconciler : Reconciler) obj s d :
  (wrapper k reconciler obj s).1 = Ok (Some d, None) →
  podSpecDefaulted (podSpecAt k (wrapper k reconciler obj s).2 d) = true
  ∧ (k = KDeployment →
     DeploymentStrategy.Type_
       (Deployment.Strategy
          (deployments (wrapper k reconciler obj s).2 !!! d)) ≠ "").
Proof.
  intros Hret.
  destruct (reconciler obj (deepCopy k obj s).2) as [[[ptr [e|]]|] s1] eqn:Hrec.
  - by rewrite (wrapper_inner_error k reconciler obj s ptr e s1 Hrec) in Hret.
  - destruct ptr as [d'|].
    2:{ by rewrite (wrapper_nil_object k reconciler obj s s1 Hrec) in Hret. }
    destruct obj as [l|].
    2:{ by rewrite (wrapper_nil_input_panics k reconciler s d' s1 Hrec)
          in Hret. }
    destruct (deepCopy_non_nil k l s) as (o & s0 & Hdc).
    rewrite Hdc in Hrec. cbn [snd] in Hrec.
    destruct (wrapper_success k reconciler (Some l) s o s0 d' s1 Hdc Hrec)
      as (s2 & Hw & _ & _ & _ & _ & _ & Hown).
    rewrite Hw in Hret |- *. cbn [fst snd] in *.
    injection Hret as ->.
    destruct k; cbn [podSpecAt] in *.
    + destruct Hown as (st & Hst & _ & Hown).
      rewrite (lookup_total_correct _ _ _ Hown). split.
      * apply podSpecDefaulted_DefaultPodSpec.
      * intros _. exact Hst.
    + rewrite (lookup_total_correct _ _ _ Hown).
      split; [apply podSpecDefaulted_DefaultPodSpec|done].
    + rewrite (lookup_total_correct _ _ _ Hown).
      split; [apply podSpecDefaulted_DefaultPodSpec|done].
    + rewrite (lookup_total_correct _ _ _ Hown).
      split; [apply podSpecDefaulted_DefaultPodSpec|done].
  - by rewrite (wrapper_inner_panic k reconciler obj s s1 Hrec) in Hret.
Qed.

Lemma wrapper_applies_DefaultPodSpec_witness :
  (wrapper KCronJob idReconciler (Some 1%positive) store_cron).1
  = Ok (Some 1%positive, None)
  ∧ PodSpec.SecurityContext
      (podSpecAt KCronJob
         (wrapper KCronJob idReconciler (Some 1%positive) store_cron).2
         1%positive)
    = Some (PodSecurityContext.mk None None None
              (Some (SeccompProfile.mk "RuntimeDefault" None))).
Proof.
  destruct (wrapper_applies_DefaultPodSpec KCronJob idReconciler
              (Some 1%positive) store_cron _ _ 1%positive _
              eq_refl eq_refl) as (Hret & Hps & _).
  split; [exact Hret|]. rewrite Hps. reflexivity.
Defined.

Lemma wrapper_panics_on_nil_object_witness :
  (wrapper KStatefulSet nilReconciler (Some 1%positive) store_app).1 = Panic.
Proof.
  rewrite (wrapper_panics_on_nil_object KStatefulSet nilReconciler
             (Some 1%positive) store_app _ eq_refl).
  reflexivity.
Defined.


Lemma wrapper_result_is_defaulted_witness :
  podSpecDefaulted
    (podSpecAt KDeployment
       (wrapper KDeployment idReconciler (Some 1%positive) store_app).2
       1%positive) = true
  ∧ DeploymentStrategy.Type_
      (Deployment.Strategy
         (deployments
            (wrapper KDeployment idReconciler (Some 1%positive) store_app).2
          !!! 1%positive)) ≠ "".
Proof.
  destruct (wrapper_result_is_defaulted KDeployment idReconciler
              (Some 1%positive) store_app 1%positive eq_refl) as [Hps Hty].
  split; [exact Hps|]. by apply Hty.
Defined.

(** ** Carry-forward through the deep copy *)

Lemma copyOf_mono h0 h h' h'' c c' :
  h0 ⊆ h → h' ⊆ h'' → copyOf h h' c c' → copyOf h0 h'' c c'.
Proof.
  intros H0 H1 [Hn Hsc]. split; [exact Hn|].
  destruct (Container.SecurityContext c) as [p|]; [|exact Hsc].
  destruct Hsc as (q & Hq & Hcopy). exists q. split; [exact Hq|].
  intros [x Hx].
  pose proof (lookup_weaken _ _ _ _ Hx H0) as Hx'.
  eapply lookup_weaken; [|exact H1].
  rewrite Hcopy by eauto.
  by rewrite (lookup_total_correct _ _ _ Hx), (lookup_total_correct _ _ _ Hx').
Qed.

Lemma copyOf_no_descriptor h h' n l1 l2 :
  Forall2 (copyOf h h') l1 l2 →
  Forall (fun c => Container.Name c = n → Container.SecurityContext c = None)
         l1 →
  Forall (fun c => Container.Name c = n → Container.SecurityContext c = None)
         l2.
Proof.
  induction 1 as [|x y l1 l2 [Hxn Hxs] _ IH]; intros Hl1; [constructor|].
  apply Forall_cons in Hl1 as [Hx Hrest].
  constructor; [|by apply IH].
  intros Hy. rewrite Hxn in Hy. by rewrite (Hx Hy) in Hxs.
Qed.

Lemma copyContainers_copyOf cs h :
  Forall2 (copyOf h (copyContainers cs h).2) cs (copyContainers cs h).1.
Proof.
  revert h. induction cs as [|c cs IH]; intros h; [constructor|].
  cbn [copyContainers]. unfold copySecurityContext.
  destruct (Container.SecurityContext c) as [p|] eqn:Hsc.
  - set (q := fresh (dom h)). set (h1 := <[q := h !!! p]> h).
    assert (Hsub : h ⊆ h1) by apply insert_fresh_subseteq.
    pose proof (copyContainers_subseteq cs h1) as Hsub'.
    specialize (IH h1).
    destruct (copyContainers cs h1) as [rest h2]. cbn [fst snd] in *.
    constructor.
    + split; [reflexivity|]. rewrite Hsc. exists q. split; [reflexivity|].
      intros _. eapply lookup_weaken; [|exact Hsub'].
      apply lookup_insert_eq.
    + eapply Forall2_impl; [exact IH|].
      intros x y. by apply copyOf_mono.
  - specialize (IH h).
    destruct (copyContainers cs h) as [rest h2]. cbn [fst snd] in *.
    constructor; [|exact IH].
    split; [reflexivity|]. by rewrite Hsc.
Qed.

Lemma PodSpec_DeepCopy_copyOf kk ps h :
  Forall2 (copyOf h (PodSpec_DeepCopy ps h).2)
    (containersOf kk ps) (containersOf kk (PodSpec_DeepCopy ps h).1).
Proof.
  unfold PodSpec_DeepCopy.
  pose proof (copyContainers_copyOf (PodSpec.InitContainers ps) h) as Hi.
  pose proof (copyContainers_subseteq (PodSpec.InitContainers ps) h) as Hsi.
  destruct (copyContainers (PodSpec.InitContainers ps) h) as [ics h1].
  pose proof (copyContainers_copyOf (PodSpec.Containers ps) h1) as Hc.
  pose proof (copyContainers_subseteq (PodSpec.Containers ps) h1) as Hsc.
  destruct (copyContainers (PodSpec.Containers ps) h1) as [cs h2].
  cbn [fst snd] in *. destruct kk; cbn.
  - eapply Forall2_impl; [exact Hi|]. intros x y. by apply copyOf_mono.
  - eapply Forall2_impl; [exact Hc|]. intros x y. by apply copyOf_mono.
Qed.

Lemma deepCopy_spec k l s o s0 :
  deepCopy k (Some l) s = (Ok (Some o), s0) →
  podSpecAt k s0 o = (PodSpec_DeepCopy (podSpecAt k s l) (contexts s)).1
  ∧ contexts s0 = (PodSpec_DeepCopy (podSpecAt k s l) (contexts s)).2.
Proof.
  destruct k; cbn [deepCopy podSpecAt];
    unfold Deployment_DeepCopy, StatefulSet_DeepCopy, DaemonSet_DeepCopy,
           CronJob_DeepCopy, DeepCopy, mbind, M_bind, deref, onContexts, alloc;
    cbn [get put deploymentTable statefulSetTable daemonSetTable cronJobTable];
    match goal with |- context [PodSpec_DeepCopy ?ps ?h] =>
      destruct (PodSpec_DeepCopy ps h) as [ps' h']
    end;
    intros [= <- <-]; cbn; by rewrite lookup_total_insert_eq.
Qed.

(** X17.  The wrappers carry the isolation mode forward even when the inner
    reconciler rebuilds the pod spec.  Let the object the wrapper is called
    on hold, at position [j] of list [kk], a container with an allocated
    security context, the last of its name to have one.  Let the inner
    reconciler succeed without touching the deep copy, and let the object it
    returns hold at position [i] of list [kk] a container of the same name
    whose security context no container visited later holds.  Then in the
    store the wrapper leaves, that security context has the isolation mode
    the original container had when the wrapper was called. *)
Theorem wrapper_carries_forward
    k kk (reconciler : Reconciler) l s o s0 d s1 j co po i c p :
  deepCopy k (Some l) s = (Ok (Some o), s0) →
  reconciler (Some l) s0 = (Ok (Some d, None), s1) →
  podSpecAt k s1 o = podSpecAt k s0 o →
  (∀ q, q ∈ descriptorsOf (podSpecAt k s0 o) →
        contexts s1 !!! q = contexts s0 !!! q) →
  containersOf kk (podSpecAt k s l) !! j = Some co →
  Container.SecurityContext co = Some po →
  is_Some (contexts s !! po) →
  Forall (fun c' => Container.Name c' = Container.Name co →
                    Container.SecurityContext c' = None)
         (drop (S j) (containersOf kk (podSpecAt k s l))) →
  containersOf kk (podSpecAt k s1 d) !! i = Some c →
  Container.Name c = Container.Name co →
  Container.SecurityContext c = Some p →
  notHeldLater kk (podSpecAt k s1 d) i p →
  SecurityContext.ProcMount
    (contexts (wrapper k reconciler (Some l) s).2 !!! p)
  = SecurityContext.ProcMount (contexts s !!! po).
Proof.
  intros Hdc Hrec Hkeep Hctx Hj Hpo Halloc Hlast Hi Hname Hp Hlater.
  destruct (wrapper_success k reconciler (Some l) s o s0 d s1 Hdc Hrec)
    as (s2 & -> & Hs2 & _).
  cbn [snd]. rewrite Hs2.
  rewrite (DefaultPodSpec_ProcMount kk _ _ _ i c p) by done.
  rewrite index_procMountTypes, Hname.
  destruct (deepCopy_spec k l s o s0 Hdc) as [Hps Hh].
  pose proof (PodSpec_DeepCopy_copyOf kk (podSpecAt k s l) (contexts s))
    as Hcopy.
  rewrite <- Hps, <- Hh in Hcopy. rewrite Hkeep.
  destruct (Forall2_lookup_l _ _ _ _ _ Hcopy Hj) as (co' & Hj' & Hn' & Hsc').
  rewrite Hpo in Hsc'. destruct Hsc' as (q & Hq & Hval).
  specialize (Hval Halloc).
  rewrite <- Hn'.
  rewrite (tableEntries_last _ _ j co' q Hj' Hq).
  - cbn. rewrite Hctx.
    + by rewrite (lookup_total_correct _ _ _ Hval).
    + apply elem_of_descriptorsOf. exists co'. split; [|exact Hq].
      apply list_elem_of_lookup_2 in Hj'.
      apply elem_of_app. destruct kk; auto.
  - apply Forall2_drop with (n := S j) in Hcopy.
    rewrite Hn'. by eapply copyOf_no_descriptor.
Qed.

Lemma wrapper_carries_forward_witness :
  SecurityContext.ProcMount
    (contexts (wrapper KDeployment replacingReconciler (Some 1%positive)
                 store_live).2 !!! 9%positive)
  = Some "Unmasked".
Proof.
  refine (wrapper_carries_forward KDeployment Main replacingReconciler
            1%positive store_live _ _ 1%positive _
            0 (container "app" (Some 1%positive)) 1%positive
            0 (container "app" (Some 9%positive)) 9%positive
            eq_refl eq_refl _ _ _ _ _ _ _ _ _ _); try reflexivity.
  - by eexists.
  - vm_compute. constructor.
  - split; [|exact I]. vm_compute. constructor.
Defined.

(** ** No drift *)

Lemma elem_of_pendingWrites_lookup m cs p v :
  (p, v) ∈ pendingWrites m cs →
  ∃ i c, cs !! i = Some c ∧ Container.SecurityContext c = Some p
         ∧ v = index m (Container.Name c).
Proof.
  unfold pendingWrites. rewrite list_elem_of_omap.
  intros (c & Hin & Hc).
  apply list_elem_of_lookup in Hin as [i Hi]. exists i, c. split; [done|].
  destruct (Container.SecurityContext c); [|discriminate].
  by injection Hc as -> ->.
Qed.

Lemma NoDup_names_later cs i c :
  NoDup (Container.Name <$> cs) →
  cs !! i = Some c →
  Forall (fun c' => Container.Name c' = Container.Name c →
                    Container.SecurityContext c' = None) (drop (S i) cs).
Proof.
  intros Hnd Hi. apply Forall_forall. intros c' Hin Hname. exfalso.
  rewrite <- (take_drop_middle cs i c Hi) in Hnd.
  rewrite fmap_app, fmap_cons in Hnd.
  apply NoDup_app in Hnd as (_ & _ & [Hc _]%NoDup_cons).
  apply Hc. rewrite <- Hname. apply list_elem_of_fmap. by exists c'.
Qed.

Lemma copyOf_names h h' l1 l2 :
  Forall2 (copyOf h h') l1 l2 → Container.Name <$> l2 = Container.Name <$> l1.
Proof.
  induction 1 as [|x y l1 l2 [Hn _] _ IH]; [reflexivity|].
  cbn. by rewrite Hn, IH.
Qed.

(** The heap is stable when the old pod spec is a faithful copy of the new
    one and names are distinct within each list. *)
Lemma DefaultPodSpec_heap_stable old ps h0 h :
  (∀ kk, Forall2 (copyOf h0 h) (containersOf kk ps) (containersOf kk old)) →
  (∀ kk, NoDup (Container.Name <$> containersOf kk ps)) →
  h0 ⊆ h →
  h0 ⊆ (DefaultPodSpec old ps h).2.
Proof.
  intros Hcopy Hnd Hsub. apply map_subseteq_spec. intros q x Hq.
  pose proof (lookup_weaken _ _ _ _ Hq Hsub) as Hq'.
  rewrite DefaultPodSpec_heap_lookup.
  destruct (lastBinding q (allWrites old ps h)) as [v|] eqn:E; [|exact Hq'].
  rewrite (lookup_total_correct _ _ _ Hq'). f_equal.
  assert (Hv : v = SecurityContext.ProcMount x);
    [|subst v; by destruct x].
  apply lastBinding_None_Some_elem in E. unfold allWrites in E.
  assert (∃ kk i c, containersOf kk ps !! i = Some c
                    ∧ Container.SecurityContext c = Some q
                    ∧ v = index (procMountTypes h (containersOf kk old))
                            (Container.Name c))
    as (kk & i & c & Hi & Hsc & ->).
  { apply elem_of_app in E as [E|E];
      apply elem_of_pendingWrites_lookup in E as (i & c & Hi & Hsc & Hv);
      [exists Init|exists Main]; by exists i, c. }
  destruct (Forall2_lookup_l _ _ _ _ _ (Hcopy kk) Hi)
    as (co & Hio & Hn & Hco).
  rewrite Hsc in Hco. destruct Hco as (q' & Hq'' & Hval).
  rewrite index_procMountTypes, <- Hn.
  rewrite (tableEntries_last _ _ i co q' Hio Hq'').
  - cbn. rewrite (lookup_total_correct _ _ _ (Hval (mk_is_Some _ _ Hq))).
    by rewrite (lookup_total_correct _ _ _ Hq).
  - apply NoDup_names_later; [|exact Hio].
    rewrite (copyOf_names _ _ _ _ (Hcopy kk)). apply Hnd.
Qed.

(** X18.  No drift.  Let a wrapper be called on an object that is already
    defaulted (its pod spec is in normal form and, for a Deployment, its
    strategy type is set), whose containers have distinct names within each
    list, and let the inner reconciler return that object without changing
    the store.  Then the wrapper returns the object, and every object and
    every security context that existed before the call is unchanged. *)
Theorem wrapper_no_drift k (reconciler : Reconciler) l s :
  allocatedAt k s l →
  podSpecDefaulted (podSpecAt k s l) = true →
  (k = KDeployment →
   DeploymentStrategy.Type_ (Deployment.Strategy (deployments s !!! l)) ≠ "") →
  NoDup (Container.Name <$> PodSpec.InitContainers (podSpecAt k s l)) →
  NoDup (Container.Name <$> PodSpec.Containers (podSpecAt k s l)) →
  reconciler (Some l) (deepCopy k (Some l) s).2
  = (Ok (Some l, None), (deepCopy k (Some l) s).2) →
  (wrapper k reconciler (Some l) s).1 = Ok (Some l, None)
  ∧ preserved s (wrapper k reconciler (Some l) s).2.
Proof.
  intros Halloc Hdef Hstrat Hni Hnc Hrec.
  destruct (deepCopy_non_nil k l s) as (o & s0 & Hdc).
  destruct (deepCopy_returns k (Some l) s) as (_ & _ & Hpres).
  rewrite Hdc in Hrec, Hpres. cbn [snd] in Hrec, Hpres.
  destruct Hpres as (Hc & Hd & Hss & Hds & Hcj).
  destruct (deepCopy_spec k l s o s0 Hdc) as [Hps Hh].
  destruct (wrapper_success k reconciler (Some l) s o s0 l s0 Hdc Hrec)
    as (s2 & -> & Hctx & H1 & H2 & H3 & H4 & Hown).
  cbn [fst snd]. split; [reflexivity|].
  assert (Hsame : podSpecAt k s0 l = podSpecAt k s l).
  { destruct k; cbn [podSpecAt allocatedAt] in *;
      destruct Halloc as [x Hx];
      rewrite (lookup_total_correct _ _ _ Hx);
      (erewrite lookup_total_correct; [reflexivity|]);
      eapply lookup_weaken; eassumption. }
  rewrite Hsame in Hctx, Hown.
  rewrite (DefaultPodSpec_fixed _ _ _ Hdef) in Hown. cbn [fst] in Hown.
  assert (Hheap : contexts s ⊆ contexts s2).
  { rewrite Hctx. apply DefaultPodSpec_heap_stable; [| |exact Hc].
    - intros kk. rewrite Hps, Hh. apply PodSpec_DeepCopy_copyOf.
    - by intros []. }
  split; [exact Hheap|].
  destruct k; cbn [podSpecAt allocatedAt] in *; destruct Halloc as [x Hx].
  - destruct Hown as (st & _ & Hst & Hown).
    pose proof (lookup_weaken _ _ _ _ Hx Hd) as Hx0.
    rewrite (lookup_total_correct _ _ _ Hx0) in Hown, Hst.
    rewrite (lookup_total_correct _ _ _ Hx) in Hdef, Hstrat, Hown.
    rewrite (Hst (Hstrat eq_refl)) in Hown.
    split; [|split; [|split]].
    + apply map_subseteq_spec. intros l' y Hy.
      destruct (decide (l' = l)) as [->|Hne].
      * rewrite Hown. rewrite Hx in Hy. injection Hy as <-.
        f_equal. by destruct x as [n [rep [lbl ps] str]].
      * rewrite H1 by auto. by eapply lookup_weaken.
    + etrans; [exact Hss|]. apply map_subseteq_spec. intros l' y Hy.
      by rewrite H2 by auto.
    + etrans; [exact Hds|]. apply map_subseteq_spec. intros l' y Hy.
      by rewrite H3 by auto.
    + etrans; [exact Hcj|]. apply map_subseteq_spec. intros l' y Hy.
      by rewrite H4 by auto.
  - pose proof (lookup_weaken _ _ _ _ Hx Hss) as Hx0.
    rewrite (lookup_total_correct _ _ _ Hx0) in Hown.
    rewrite (lookup_total_correct _ _ _ Hx) in Hdef, Hown.
    split; [|split; [|split]].
    + etrans; [exact Hd|]. apply map_subseteq_spec. intros l' y Hy.
      by rewrite H1 by auto.
    + apply map_subseteq_spec. intros l' y Hy.
      destruct (decide (l' = l)) as [->|Hne].
      * rewrite Hown. rewrite Hx in Hy. injection Hy as <-.
        f_equal. by destruct x as [n [rep sn [lbl ps]]].
      * rewrite H2 by auto. by eapply lookup_weaken.
    + etrans; [exact Hds|]. apply map_subseteq_spec. intros l' y Hy.
      by rewrite H3 by auto.
    + etrans; [exact Hcj|]. apply map_subseteq_spec. intros l' y Hy.
      by rewrite H4 by auto.
  - pose proof (lookup_weaken _ _ _ _ Hx Hds) as Hx0.
    rewrite (lookup_total_correct _ _ _ Hx0) in Hown.
    rewrite (lookup_total_correct _ _ _ Hx) in Hdef, Hown.
    split; [|split; [|split]].
    + etrans; [exact Hd|]. apply map_subseteq_spec. intros l' y Hy.
      by rewrite H1 by auto.
    + etrans; [exact Hss|]. apply map_subseteq_spec. intros l' y Hy.
      by rewrite H2 by auto.
    + apply map_subseteq_spec. intros l' y Hy.
      destruct (decide (l' = l)) as [->|Hne].
      * rewrite Hown. rewrite Hx in Hy. injection Hy as <-.
        f_equal. by destruct x as [n [[lbl ps] mrs]].
      * rewrite H3 by auto. by eapply lookup_weaken.
    + etrans; [exact Hcj|]. apply map_subseteq_spec. intros l' y Hy.
      by rewrite H4 by auto.
  - pose proof (lookup_weaken _ _ _ _ Hx Hcj) as Hx0.
    rewrite (lookup_total_correct _ _ _ Hx0) in Hown.
    rewrite (lookup_total_correct _ _ _ Hx) in Hdef, Hown.
    split; [|split; [|split]].
    + etrans; [exact Hd|]. apply map_subseteq_spec. intros l' y Hy.
      by rewrite H1 by auto.
    + etrans; [exact Hss|]. apply map_subseteq_spec. intros l' y Hy.
      by rewrite H2 by auto.
    + etrans; [exact Hds|]. apply map_subseteq_spec. intros l' y Hy.
      by rewrite H3 by auto.
    + apply map_subseteq_spec. intros l' y Hy.
      destruct (decide (l' = l)) as [->|Hne].
      * rewrite Hown. rewrite Hx in Hy. injection Hy as <-.
        f_equal. by destruct x as [n [sch [[par [lbl ps]]]]].
      * rewrite H4 by auto. by eapply lookup_weaken.
Qed.

Lemma wrapper_no_drift_witness :
  (wrapper KDeployment idReconciler (Some 1%positive) store_defaulted).1
  = Ok (Some 1%positive, None)
  ∧ preserved store_defaulted
      (wrapper KDeployment idReconciler (Some 1%positive) store_defaulted).2.
Proof.
  apply (wrapper_no_drift KDeployment idReconciler 1%positive store_defaulted).
  - by eexists.
  - reflexivity.
  - intros _. discriminate.
  - constructor.
  - cbn. apply NoDup_singleton.
  - reflexivity.
Defined.
